(** * Data-access core of main.py: repository, loaders, transactions

    A shallow embedding of the SQLAlchemy code of [main.py]: the ORM classes,
    the in-memory SQLite store behind [engine], sessions as units of work,
    [BookRepository], the lazy and eager author reads, the transactional
    demo and the aggregate query.  Python code that raises is written in a
    state-and-exception monad over the process state.  The store can fail:
    the state carries the failures it is going to raise, one per call that
    reaches it, so that the [except SQLAlchemyError] paths can be run.
    Python integers are unbounded and those of the store have 64 bits: an
    integer of the caller that does not fit is refused by the driver when
    it is bound to a statement, with an OverflowError. *)

From stdpp Require Import base option list strings numbers gmap fin_maps pretty.

Set Default Proof Using "Type".
Open Scope Z_scope.
Open Scope string_scope.
Open Scope list_scope.

(** ** ORM classes (main.py, lines 30-51) *)

(** [Book]: [id] is [None] until the row has been inserted; [title] is
    [nullable=False]; [author_id] is a nullable foreign-key column. *)
Record Book := mkBook {
  Book_id : option Z;
  Book_title : string;
  Book_author_id : option Z
}.

Record User := mkUser {
  User_id : option Z;
  User_username : string;
  User_email : string
}.

(** [Author] objects only come out of queries here, so their [id] is set.
    [Author_books] is the relationship attribute: [None] while it has not
    been loaded ([lazy="select"]), [Some bs] once it has. *)
Record Author := mkAuthor {
  Author_id : Z;
  Author_name : string;
  Author_books : option (list Book)
}.

Global Instance Book_eq_dec : EqDecision Book.
Proof. solve_decision. Defined.
Global Instance User_eq_dec : EqDecision User.
Proof. solve_decision. Defined.
Global Instance Author_eq_dec : EqDecision Author.
Proof. solve_decision. Defined.

Global Instance Book_inhabited : Inhabited Book := populate (mkBook None "" None).
Global Instance User_inhabited : Inhabited User := populate (mkUser None "" "").

(** A Python reference to a [Book] or [User] object: an index into the heap
    of objects of that class.  The objects are mutable (a flush fills in
    [id], a refresh reloads the columns), so pending objects are held by
    reference. *)
Inductive ref :=
  | BookRef (n : nat)
  | UserRef (n : nat).

(** A persistent object as [session.delete] receives it. *)
Inductive Instance :=
  | InstBook (b : Book)
  | InstUser (u : User).

(** ** The store behind [engine] (lines 64-72)

    One in-memory SQLite database.  A table is a finite map from the
    primary key to the remaining columns.  SQLite is opened with its
    defaults: [create_engine] sets no [PRAGMA foreign_keys], so the
    [ForeignKey("authors.id")] of [Book.author_id] is declared but not
    enforced by the store. *)
Record Database := mkDatabase {
  authors : gmap Z string;
  books : gmap Z (string * option Z);
  users : gmap Z (string * string)
}.

Definition empty_database : Database := mkDatabase ∅ ∅ ∅.

(** SQLite keeps an INTEGER, a primary key included, in 64 bits, signed. *)
Definition max_int64 : Z := 2 ^ 63 - 1.
Definition min_int64 : Z := - 2 ^ 63.

Definition int64 (z : Z) : Prop := (min_int64 ≤ z ≤ max_int64)%Z.

Global Instance int64_dec z : Decision (int64 z).
Proof. unfold int64. apply _. Defined.

(** The key SQLite gives a row inserted without an explicit primary key:
    one more than the largest key in use, [1] in an empty table.  When the
    largest key in use is the largest 64-bit integer, SQLite draws positive
    keys at random until it finds one that is not in use; the model takes
    the smallest positive key that is not in use, and what is proved of a
    key assigned at that point is only that it was not in use.  A result
    beyond 64 bits stands for a table in which no key is left. *)
Definition next_rowid {V} (t : gmap Z V) : Z :=
  match (map_to_list t).*1 with
  | [] => 1
  | k :: ks =>
      let m := foldr Z.max k ks in
      if decide (m < max_int64)%Z then m + 1
      else default (m + 1)
             (snd <$> list_find (λ k', t !! k' = None)
                        (seqZ 1 (Z.of_nat (size t) + 1)))
  end.

(** ** Exceptions *)

Inductive exn :=
  | Exception (msg : string)
  | SQLAlchemyError (msg : string)
  | OverflowError (msg : string)
  | HTTPException (status_code : Z) (detail : string).

(** [isinstance(e, SQLAlchemyError)]; every [exn] is an [Exception]. *)
Definition is_SQLAlchemyError (e : exn) : bool :=
  match e with SQLAlchemyError _ => true | _ => false end.

(** [str(e)].  The text of an HTTPException depends on the version of the
    framework (empty, or the status followed by the detail); the model
    takes the detail, and what is proved of a detail made from it is only
    that there is one. *)
Definition str (e : exn) : string :=
  match e with
  | Exception msg => msg
  | SQLAlchemyError msg => msg
  | OverflowError msg => msg
  | HTTPException _ detail => detail
  end.

(** ** Sessions and the process state *)

(** A unit of work.  [new] are the pending objects ([session.add]),
    as references into the object heap; [deleted] the objects marked by
    [session.delete]; [transaction] is [Some view] while a transaction is
    in progress, [view] being the database as this transaction sees it
    (its flushed writes are in it, its pending ones are not yet).  Every
    session of this program is created, used and closed inside one call,
    so a session never meets an object it has loaded before and the
    identity map is left out. *)
Record Session := mkSession {
  new : list ref;
  deleted : list Instance;
  transaction : option Database
}.

(** What [SessionLocal()] returns, and what [close()] leaves. *)
Definition fresh_session : Session := mkSession [] [] None.

Global Instance Session_inhabited : Inhabited Session := populate fresh_session.

(** The process state: the committed database, the failures the store is
    going to raise (one entry per call that reaches the store, [Some msg]
    making that call raise [SQLAlchemyError msg]; past the end of the list
    every call succeeds), the sessions created so far and the heaps of
    [Book] and [User] objects constructed so far. *)
Record World := mkWorld {
  db : Database;
  faults : list (option string);
  sessions : list Session;
  Book_objects : list Book;
  User_objects : list User
}.

Inductive Outcome (A : Type) :=
  | Return (a : A)
  | Raise (e : exn).
Arguments Return {A} a.
Arguments Raise {A} e.

Definition M (A : Type) : Type := World → Outcome A * World.

Global Instance M_ret : MRet M := λ A a w, (Return a, w).
Global Instance M_bind : MBind M := λ A B f m w,
  match m w with
  | (Return a, w1) => f a w1
  | (Raise e, w1) => (Raise e, w1)
  end.

Definition raise {A} (e : exn) : M A := λ w, (Raise e, w).

(** [try: body except E as e: handler e], [catches] deciding [isinstance(e, E)]. *)
Definition try_except {A} (body : M A) (catches : exn → bool) (handler : exn → M A) : M A :=
  λ w, match body w with
       | (Return a, w1) => (Return a, w1)
       | (Raise e, w1) => if catches e then handler e w1 else (Raise e, w1)
       end.

(** [try: body finally: fin]: [fin] runs on every exit of [body]; a failure
    of [fin] replaces the outcome of [body]. *)
Definition try_finally {A} (body : M A) (fin : M unit) : M A :=
  λ w, match body w with
       | (r, w1) =>
           match fin w1 with
           | (Return _, w2) => (r, w2)
           | (Raise e, w2) => (Raise e, w2)
           end
       end.

(** *** Primitive steps *)

(** One call that reaches the store. *)
Definition store_call : M unit := λ w,
  match faults w with
  | [] => (Return (), w)
  | None :: fs =>
      (Return (), mkWorld (db w) fs (sessions w) (Book_objects w) (User_objects w))
  | Some msg :: fs =>
      (Raise (SQLAlchemyError msg),
       mkWorld (db w) fs (sessions w) (Book_objects w) (User_objects w))
  end.

(** The sqlite3 driver binds a Python [int] as a 64-bit INTEGER and raises
    [OverflowError], which is no [SQLAlchemyError], for one that does not
    fit; the statement does not reach the store then. *)
Definition bind_int (z : Z) : M unit :=
  if decide (int64 z) then mret ()
  else raise (OverflowError "Python int too large to convert to SQLite INTEGER").

(** A parameter that may be [None], bound as NULL. *)
Definition bind_optional_int (o : option Z) : M unit :=
  match o with
  | Some z => bind_int z
  | None => mret ()
  end.

(** The INSERT fails when SQLite has no key left for the row. *)
Definition check_rowid (k : Z) : M unit :=
  if decide (int64 k) then mret ()
  else raise (SQLAlchemyError "(sqlite3.OperationalError) database or disk is full").

Definition get_db : M Database := λ w, (Return (db w), w).
Definition put_db (d : Database) : M unit := λ w,
  (Return (), mkWorld d (faults w) (sessions w) (Book_objects w) (User_objects w)).

Definition get_session (h : nat) : M Session := λ w, (Return (sessions w !!! h), w).
Definition put_session (h : nat) (s : Session) : M unit := λ w,
  (Return (),
   mkWorld (db w) (faults w) (<[h:=s]> (sessions w)) (Book_objects w) (User_objects w)).

(** [Book(title=..., author_id=...)] *)
Definition new_Book (title : string) (author_id : option Z) : M nat := λ w,
  (Return (length (Book_objects w)),
   mkWorld (db w) (faults w) (sessions w)
     (Book_objects w ++ [mkBook None title author_id]) (User_objects w)).
Definition get_Book (n : nat) : M Book := λ w, (Return (Book_objects w !!! n), w).
Definition put_Book (n : nat) (b : Book) : M unit := λ w,
  (Return (),
   mkWorld (db w) (faults w) (sessions w) (<[n:=b]> (Book_objects w)) (User_objects w)).

(** [User(username=..., email=...)] *)
Definition new_User (username email : string) : M nat := λ w,
  (Return (length (User_objects w)),
   mkWorld (db w) (faults w) (sessions w) (Book_objects w)
     (User_objects w ++ [mkUser None username email])).
Definition get_User (n : nat) : M User := λ w, (Return (User_objects w !!! n), w).
Definition put_User (n : nat) (u : User) : M unit := λ w,
  (Return (),
   mkWorld (db w) (faults w) (sessions w) (Book_objects w) (<[n:=u]> (User_objects w))).

(** *** [SessionLocal] (line 75) and the [Session] methods *)

(** [SessionLocal()]: a new session bound to [engine]; the result is its handle. *)
Definition SessionLocal : M nat := λ w,
  (Return (length (sessions w)),
   mkWorld (db w) (faults w) (sessions w ++ [fresh_session])
     (Book_objects w) (User_objects w)).

(** A session begins a transaction by itself at its first use; the result
    is the database as the transaction sees it. *)
Definition autobegin (h : nat) : M Database :=
  s ← get_session h;
  match transaction s with
  | Some view => mret view
  | None =>
      d ← get_db;
      put_session h (mkSession (new s) (deleted s) (Some d));;
      mret d
  end.

Definition put_view (h : nat) (view : Database) : M unit :=
  s ← get_session h;
  put_session h (mkSession (new s) (deleted s) (Some view)).

(** [session.begin()] *)
Definition Session_begin (h : nat) : M unit :=
  s ← get_session h;
  match transaction s with
  | Some _ => raise (SQLAlchemyError "A transaction is already begun on this Session.")
  | None =>
      d ← get_db;
      put_session h (mkSession (new s) (deleted s) (Some d))
  end.

(** [session.add(obj)] *)
Definition Session_add (h : nat) (r : ref) : M unit :=
  s ← get_session h;
  put_session h (mkSession (new s ++ [r]) (deleted s) (transaction s)).

Definition Instance_id (i : Instance) : option Z :=
  match i with
  | InstBook b => Book_id b
  | InstUser u => User_id u
  end.

(** [session.delete(obj)]: only a persistent object can be marked. *)
Definition Session_delete (h : nat) (i : Instance) : M unit :=
  match Instance_id i with
  | None => raise (SQLAlchemyError "Instance is not persisted")
  | Some _ =>
      s ← get_session h;
      put_session h (mkSession (new s) (deleted s ++ [i]) (transaction s))
  end.

(** The INSERT of one pending object: the integers of the object are bound
    as parameters, the statement reaches the store, and without an explicit
    key SQLite assigns [next_rowid]; the key is written back into the
    object. *)
Definition flush_insert (h : nat) (r : ref) : M unit :=
  view ← autobegin h;
  match r with
  | BookRef n =>
      b ← get_Book n;
      bind_optional_int (Book_id b);;
      bind_optional_int (Book_author_id b);;
      store_call;;
      match Book_id b with
      | None =>
          let k := next_rowid (books view) in
          check_rowid k;;
          put_view h (mkDatabase (authors view)
                        (<[k:=(Book_title b, Book_author_id b)]> (books view))
                        (users view));;
          put_Book n (mkBook (Some k) (Book_title b) (Book_author_id b))
      | Some k =>
          match books view !! k with
          | Some _ => raise (SQLAlchemyError "UNIQUE constraint failed: books.id")
          | None =>
              put_view h (mkDatabase (authors view)
                            (<[k:=(Book_title b, Book_author_id b)]> (books view))
                            (users view))
          end
      end
  | UserRef n =>
      u ← get_User n;
      bind_optional_int (User_id u);;
      store_call;;
      match User_id u with
      | None =>
          let k := next_rowid (users view) in
          check_rowid k;;
          put_view h (mkDatabase (authors view) (books view)
                        (<[k:=(User_username u, User_email u)]> (users view)));;
          put_User n (mkUser (Some k) (User_username u) (User_email u))
      | Some k =>
          match users view !! k with
          | Some _ => raise (SQLAlchemyError "UNIQUE constraint failed: users.id")
          | None =>
              put_view h (mkDatabase (authors view) (books view)
                            (<[k:=(User_username u, User_email u)]> (users view)))
          end
      end
  end.

(** The DELETE of one object marked as deleted; a row that is gone makes
    the flush fail (the statement matched no row). *)
Definition flush_delete (h : nat) (i : Instance) : M unit :=
  view ← autobegin h;
  match i with
  | InstBook b =>
      match Book_id b with
      | None => mret ()
      | Some k =>
          store_call;;
          match books view !! k with
          | None => raise (SQLAlchemyError "DELETE statement on table 'books' expected to delete 1 row(s); 0 were matched.")
          | Some _ =>
              put_view h (mkDatabase (authors view) (delete k (books view)) (users view))
          end
      end
  | InstUser u =>
      match User_id u with
      | None => mret ()
      | Some k =>
          store_call;;
          match users view !! k with
          | None => raise (SQLAlchemyError "DELETE statement on table 'users' expected to delete 1 row(s); 0 were matched.")
          | Some _ =>
              put_view h (mkDatabase (authors view) (books view) (delete k (users view)))
          end
      end
  end.

(** [session.flush()]: the pending INSERTs, then the DELETEs.  With nothing
    to write it does not touch the session. *)
Definition Session_flush (h : nat) : M unit :=
  s ← get_session h;
  match new s, deleted s with
  | [], [] => mret ()
  | _, _ =>
      mapM (flush_insert h) (new s);;
      mapM (flush_delete h) (deleted s);;
      s' ← get_session h;
      put_session h (mkSession [] [] (transaction s'))
  end.

(** [session.commit()]: flush, COMMIT, and the view becomes the database. *)
Definition Session_commit (h : nat) : M unit :=
  Session_flush h;;
  view ← autobegin h;
  store_call;;
  put_db view;;
  s ← get_session h;
  put_session h (mkSession (new s) (deleted s) None).

(** [session.rollback()]: the transaction ends, its view is dropped and the
    pending objects are expunged. *)
Definition Session_rollback (h : nat) : M unit := put_session h fresh_session.

(** [session.close()]: ends a transaction in progress the way a rollback
    does, expunges every object and releases the connection. *)
Definition Session_close (h : nat) : M unit := put_session h fresh_session.

(** The session holds nothing and has no transaction in progress. *)
Definition Session_closed (h : nat) (w : World) : Prop :=
  sessions w !! h = Some fresh_session.

(** [with session.begin(): body]: commit when [body] completes, roll back
    and re-raise when [body] (or the commit) raises. *)
Definition with_begin {A} (h : nat) (body : M A) : M A :=
  Session_begin h;;
  a ← try_except body (λ _, true) (λ e, Session_rollback h;; raise e);
  try_except (Session_commit h) (λ _, true) (λ e, Session_rollback h;; raise e);;
  mret a.

(** *** Reads *)

Definition Book_of_row (row : Z * (string * option Z)) : Book :=
  mkBook (Some row.1) row.2.1 row.2.2.

(** [SELECT ... FROM books WHERE books.author_id = :author_id].  The order
    of the rows of a SELECT without ORDER BY is the store's; the model
    takes the order of [map_to_list]. *)
Definition select_books_by_author (view : Database) (author_id : Z)
    : list (Z * (string * option Z)) :=
  filter (λ row, row.2.2 = Some author_id) (map_to_list (books view)).

(** A statement run through the session: pending writes are flushed first
    ([autoflush]), a transaction is begun if there is none, and the
    statement reaches the store.  The result is the view it reads. *)
Definition Session_execute (h : nat) : M Database :=
  Session_flush h;;
  view ← autobegin h;
  store_call;;
  mret view.

(** The same for a statement with an integer parameter that the caller
    supplies: it is bound before the statement reaches the store. *)
Definition Session_execute_bind (h : nat) (param : Z) : M Database :=
  Session_flush h;;
  view ← autobegin h;
  bind_int param;;
  store_call;;
  mret view.

(** [session.query(Book).filter(Book.author_id == author_id).all()] *)
Definition Session_query_Book_by_author (h : nat) (author_id : Z) : M (list Book) :=
  view ← Session_execute_bind h author_id;
  mret (Book_of_row <$> select_books_by_author view author_id).

(** [session.get(Book, book_id)] *)
Definition Session_get_Book (h : nat) (book_id : Z) : M (option Book) :=
  view ← Session_execute_bind h book_id;
  mret ((λ row, Book_of_row (book_id, row)) <$> books view !! book_id).

(** [session.refresh(book)]: reload the columns of the object from its row. *)
Definition Session_refresh_Book (h : nat) (n : nat) : M unit :=
  b ← get_Book n;
  match Book_id b with
  | None => raise (SQLAlchemyError "Instance is not persistent within this Session")
  | Some k =>
      view ← autobegin h;
      store_call;;
      match books view !! k with
      | None => raise (SQLAlchemyError "Could not refresh instance")
      | Some row => put_Book n (Book_of_row (k, row))
      end
  end.

(** [session.query(Author).all()]: the [books] of each author are not loaded. *)
Definition Session_query_Author_all (h : nat) : M (list Author) :=
  view ← Session_execute h;
  mret ((λ row, mkAuthor row.1 row.2 None) <$> map_to_list (authors view)).

(** [a.books]: a collection that is loaded is returned as it is; one that
    is not is loaded now, by a SELECT of its own, whose parameter is the id
    that the store gave the author, an integer of 64 bits. *)
Definition Author_books_get (h : nat) (a : Author) : M (list Book) :=
  match Author_books a with
  | Some bs => mret bs
  | None =>
      view ← Session_execute h;
      mret (Book_of_row <$> select_books_by_author view (Author_id a))
  end.

(** [authors LEFT OUTER JOIN books ON authors.id = books.author_id]: one row
    per pair of an author and one of its books, and one row with no book
    for an author without books. *)
Definition left_outer_join (view : Database) : list ((Z * string) * option Book) :=
  a ← map_to_list (authors view);
  match select_books_by_author view a.1 with
  | [] => [(a, None)]
  | rows => (λ row, (a, Some (Book_of_row row))) <$> rows
  end.

(** What the ORM does with one row of the joined load: the author is
    looked up by primary key among the authors already built; a new one is
    appended, with an empty collection; the book of the row, if any, goes
    to the end of the author's collection. *)
Fixpoint add_joined_row (row : (Z * string) * option Book) (acc : list Author)
    : list Author :=
  match acc with
  | [] => [mkAuthor row.1.1 row.1.2 (Some (option_list row.2))]
  | a :: acc' =>
      if decide (Author_id a = row.1.1)
      then mkAuthor (Author_id a) (Author_name a)
             (Some (default [] (Author_books a) ++ option_list row.2)) :: acc'
      else a :: add_joined_row row acc'
  end.

(** [session.query(Author).options(joinedload(Author.books)).all()] *)
Definition Session_query_Author_joinedload_all (h : nat) : M (list Author) :=
  view ← Session_execute h;
  mret (foldl (λ acc row, add_joined_row row acc) [] (left_outer_join view)).

(** ** The repository (lines 80-122) *)

Module BookRepository.

Record t := mk { session_factory : M nat }.

Definition add_book (self : t) (title : string) (author_id : Z) : M Book :=
  session ← session_factory self;
  try_finally
    (try_except
       (new_book ← new_Book title (Some author_id);
        Session_add session (BookRef new_book);;
        Session_commit session;;
        Session_refresh_Book session new_book;;
        get_Book new_book)
       is_SQLAlchemyError
       (λ e, Session_rollback session;; raise e))
    (Session_close session).

Definition get_books_by_author (self : t) (author_id : Z) : M (list Book) :=
  session ← session_factory self;
  try_finally
    (books ← Session_query_Book_by_author session author_id;
     mret books)
    (Session_close session).

Definition delete_book (self : t) (book_id : Z) : M bool :=
  session ← session_factory self;
  try_finally
    (try_except
       (book ← Session_get_Book session book_id;
        match book with
        | Some b =>
            Session_delete session (InstBook b);;
            Session_commit session;;
            mret true
        | None => mret false
        end)
       is_SQLAlchemyError
       (λ e, Session_rollback session;; raise e))
    (Session_close session).

End BookRepository.

Definition book_repo : BookRepository.t := BookRepository.mk SessionLocal.

(** ** Request schema and the create endpoint (lines 127-129, 247-256) *)

Record BookCreate := mkBookCreate {
  BookCreate_title : string;
  BookCreate_author_id : Z
}.

(** [POST /books/add] *)
Definition add_book (book : BookCreate) : M Book :=
  try_except
    (new_book ← BookRepository.add_book book_repo
                  (BookCreate_title book) (BookCreate_author_id book);
     mret new_book)
    (λ _, true)
    (λ e, raise (HTTPException 400 (str e))).

(** ** Lazy and eager reads of the authors (lines 166-193) *)

(** The dict [{"id": ..., "name": ..., "books": [...]}] of one author. *)
Record AuthorDict := mkAuthorDict {
  d_id : Z;
  d_name : string;
  d_books : list string
}.

(** The comprehension both reads end with:
    [[{"id": a.id, "name": a.name, "books": [b.title for b in a.books]} for a in authors]] *)
Definition authors_result (session : nat) (authors : list Author) : M (list AuthorDict) :=
  mapM (λ a, bs ← Author_books_get session a;
             mret (mkAuthorDict (Author_id a) (Author_name a) (Book_title <$> bs)))
       authors.

(** [GET /authors/lazy] *)
Definition get_authors_lazy : M (list AuthorDict) :=
  session ← SessionLocal;
  try_finally
    (authors ← Session_query_Author_all session;
     result ← authors_result session authors;
     mret result)
    (Session_close session).

(** [GET /authors/eager] *)
Definition get_authors_eager : M (list AuthorDict) :=
  session ← SessionLocal;
  try_finally
    (authors ← Session_query_Author_joinedload_all session;
     result ← authors_result session authors;
     mret result)
    (Session_close session).

(** ** The transactional demo (lines 198-220) *)

(** The dict [{"status": ..., "message": ...}]. *)
Record StatusDict := mkStatusDict {
  status : string;
  message : string
}.

(** The body of the [with session.begin():] block, the statements after
    the [raise] included. *)
Definition create_users_block (session : nat) : M unit :=
  user1 ← new_User "user1" "user1@example.com";
  Session_add session (UserRef user1);;
  user2 ← new_User "user2" "user2@example.com";
  Session_add session (UserRef user2);;
  (raise (Exception "Искусственная ошибка при добавлении третьего пользователя") : M unit);;
  user3 ← new_User "user3" "user3@example.com";
  Session_add session (UserRef user3).

(** [POST /users/transaction].  A call that got past the [with] block
    would fall off the end of the function and return [None]. *)
Definition create_users_transaction : M (option StatusDict) :=
  session ← SessionLocal;
  try_finally
    (try_except
       (with_begin session (create_users_block session);;
        mret None)
       (λ _, true)
       (λ e, mret (Some (mkStatusDict "error" ("Транзакция откатилась: " +:+ str e)))))
    (Session_close session).

(** ** The aggregate query (lines 286-310) *)

(** The dict [{"author": ..., "book_count": ...}]. *)
Record BookCount := mkBookCount {
  author : string;
  book_count : Z
}.

(** [Table(name, metadata, autoload_with=engine)]: the reflection of a
    table reads its definition from the store.  It does so in several
    statements; the model counts them as one call, which can fail. *)
Definition Table_autoload (name : string) : M unit := store_call.

(** [authors JOIN books ON authors.id = books.author_id], projected on
    [(authors.name, books.id)]. *)
Definition inner_join (d : Database) : list (string * Z) :=
  a ← map_to_list (authors d);
  (λ row, (a.2, row.1)) <$> select_books_by_author d a.1.

(** [SELECT authors.name, count(books.id) AS book_count ... GROUP BY authors.name]:
    one row per distinct name among the joined rows. *)
Definition group_by_name_count (rows : list (string * Z)) : list (string * Z) :=
  (λ n, (n, Z.of_nat (length (filter (λ row, row.1 = n) rows)))) <$> remove_dups rows.*1.

(** [connection.execute(stmt)] on a connection of [engine]. *)
Definition connection_execute_stmt : M (list (string * Z)) :=
  store_call;;
  d ← get_db;
  mret (group_by_name_count (inner_join d)).

(** [GET /authors/book_counts] *)
Definition get_authors_book_counts : M (list BookCount) :=
  Table_autoload "authors";;
  Table_autoload "books";;
  result ← connection_execute_stmt;
  let counts := (λ row, mkBookCount row.1 row.2) <$> result in
  mret counts.

(** ** Worlds to run the program in *)

(** A process whose store holds [d] and raises the failures [fs]. *)
Definition world_of (d : Database) (fs : list (option string)) : World :=
  mkWorld d fs [] [] [].


(** ** Notions the statements are written with *)

(** The two Users the transactional demo constructs, and the message of
    the dict it returns. *)
Definition user1 : User := mkUser None "user1" "user1@example.com".
Definition user2 : User := mkUser None "user2" "user2@example.com".

Definition rollback_message : string :=
  "Транзакция откатилась: Искусственная ошибка при добавлении третьего пользователя".

(** The database after the INSERT of a book under the key SQLite assigns. *)
Definition insert_book (d : Database) (title : string) (author_id : option Z) : Database :=
  mkDatabase (authors d) (<[next_rowid (books d):=(title, author_id)]> (books d)) (users d).

Definition remove_book (d : Database) (book_id : Z) : Database :=
  mkDatabase (authors d) (delete book_id (books d)) (users d).

(** The dicts of the authors of [d], the books of each read from [d]. *)
Definition author_dicts (d : Database) : list AuthorDict :=
  (λ row, mkAuthorDict row.1 row.2
            (Book_title <$> (Book_of_row <$> select_books_by_author d row.1)))
  <$> map_to_list (authors d).

(** An author of [view] with its books loaded. *)
Definition loaded_author (view : Database) (row : Z * string) : Author :=
  mkAuthor row.1 row.2 (Some (Book_of_row <$> select_books_by_author view row.1)).

(** The same authors with the same titles, whatever the order of the
    authors and of the titles of an author. *)
Definition equivalent_data (r1 r2 : list AuthorDict) : Prop :=
  ∃ r, r1 ≡ₚ r
       ∧ Forall2 (λ x y, d_name x = d_name y ∧ d_books x ≡ₚ d_books y) r r2.

(** Every Book with an author_id refers to an Author of the database. *)
Definition referential_integrity (d : Database) : Prop :=
  ∀ k title a, books d !! k = Some (title, Some a) → is_Some (authors d !! a).

(** Author 1, "A", with the books 1 and 2; author 2, "B", without books. *)
Definition db1 : Database :=
  mkDatabase (<[2:="B"]> (<[1:="A"]> ∅))
             (<[2:=("t2", Some 1)]> (<[1:=("t1", Some 1)]> ∅)) ∅.

(** Two authors of the same name, with one book each. *)
Definition db2 : Database :=
  mkDatabase (<[2:="A"]> (<[1:="A"]> ∅))
             (<[2:=("t2", Some 2)]> (<[1:=("t1", Some 1)]> ∅)) ∅.

(** ** The other endpoints of the repository (lines 258-281) *)

(** [GET /books/by_author/{author_id}] *)
Definition get_books_by_author (author_id : Z) : M (list Book) :=
  try_except
    (books ← BookRepository.get_books_by_author book_repo author_id;
     mret books)
    (λ _, true)
    (λ e, raise (HTTPException 400 (str e))).

(** [DELETE /books/{book_id}].  The [raise HTTPException(status_code=404)]
    of the [else] branch stands inside the [try], whose [except Exception]
    catches it.  What [str] makes of an [HTTPException] depends on the
    release of the web framework; the statements about this endpoint speak
    of the status code only. *)
Definition delete_book (book_id : Z) : M StatusDict :=
  try_except
    (result ← BookRepository.delete_book book_repo book_id;
     if result : bool
     then mret (mkStatusDict "success"
                  ("Книга с id " +:+ pretty book_id +:+ " удалена"))
     else raise (HTTPException 404 "Книга не найдена"))
    (λ _, true)
    (λ e, raise (HTTPException 400 (str e))).

(** ** More notions the statements are written with *)

(** The store raises no failure, however often it is called. *)
Definition healthy (fs : list (option string)) : Prop :=
  Forall (λ f, f = None) fs.

Global Instance healthy_dec fs : Decision (healthy fs).
Proof. unfold healthy. apply _. Defined.

(** The books of [d] whose author_id is the id of an Author of [d]. *)
Definition books_with_author (d : Database) : list (Z * (string * option Z)) :=
  filter (λ row, is_Some (a ← row.2.2; authors d !! a)) (map_to_list (books d)).

(** The titles of the books of [d] whose author_id is [a], one for each
    book. *)
Definition titles_of_author (d : Database) (a : Z) : list string :=
  (λ row, row.2.1) <$> select_books_by_author d a.

(** [r] has one dict for each Author of [d], with its id, its name and, up
    to their order, the titles of the books whose author_id is that id,
    each as often as there are such books: an Author without books has a
    dict, with no title. *)
Definition lists_all_authors (d : Database) (r : list AuthorDict) : Prop :=
  NoDup (d_id <$> r)
  ∧ length r = size (authors d)
  ∧ (∀ x, x ∈ r → authors d !! d_id x = Some (d_name x))
  ∧ (∀ a n, authors d !! a = Some n →
       ∃ x, x ∈ r ∧ d_id x = a ∧ d_name x = n
            ∧ d_books x ≡ₚ titles_of_author d a
            ∧ ∀ title, title ∈ d_books x ↔ ∃ k, books d !! k = Some (title, Some a)).

(** Every id of a book of [d] fits 64 bits, as in every SQLite table. *)
Definition book_ids_int64 (d : Database) : Prop :=
  map_Forall (λ k _, int64 k) (books d).

Global Instance book_ids_int64_dec d : Decision (book_ids_int64 d).
Proof. unfold book_ids_int64. apply _. Defined.

(** * Reasoning about runs *)

Arguments store_call : simpl never.
Arguments get_db : simpl never.
Arguments put_db : simpl never.
Arguments get_session : simpl never.
Arguments put_session : simpl never.
Arguments new_Book : simpl never.
Arguments get_Book : simpl never.
Arguments put_Book : simpl never.
Arguments new_User : simpl never.
Arguments get_User : simpl never.
Arguments put_User : simpl never.
Arguments SessionLocal : simpl never.
Arguments bind_int : simpl never.
Arguments check_rowid : simpl never.

(** The session a call works on is the last one created, and the object it
    works on the last one constructed: the equations of the primitive steps
    at the end of the list. *)
Section primitive_steps.
Context (d : Database) (fs : list (option string)) (ss : list Session)
        (bo : list Book) (uo : list User).

Lemma lookup_total_last {A} `{Inhabited A} (l : list A) (x : A) :
  (l ++ [x]) !!! length l = x.
Proof. by apply list_lookup_total_middle. Qed.

Lemma insert_last {A} (l : list A) (x y : A) :
  <[length l:=y]> (l ++ [x]) = l ++ [y].
Proof.
  rewrite insert_app_r_alt by lia. by rewrite Nat.sub_diag.
Qed.

Lemma SessionLocal_eq :
  SessionLocal (mkWorld d fs ss bo uo)
  = (Return (length ss), mkWorld d fs (ss ++ [fresh_session]) bo uo).
Proof. reflexivity. Qed.

Lemma get_session_eq s :
  get_session (length ss) (mkWorld d fs (ss ++ [s]) bo uo)
  = (Return s, mkWorld d fs (ss ++ [s]) bo uo).
Proof. unfold get_session; cbn. by rewrite lookup_total_last. Qed.

Lemma put_session_eq s s' :
  put_session (length ss) s' (mkWorld d fs (ss ++ [s]) bo uo)
  = (Return (), mkWorld d fs (ss ++ [s']) bo uo).
Proof. unfold put_session; cbn. by rewrite insert_last. Qed.

Lemma get_db_eq : get_db (mkWorld d fs ss bo uo) = (Return d, mkWorld d fs ss bo uo).
Proof. reflexivity. Qed.

Lemma put_db_eq d' :
  put_db d' (mkWorld d fs ss bo uo) = (Return (), mkWorld d' fs ss bo uo).
Proof. reflexivity. Qed.

Lemma new_Book_eq title author_id :
  new_Book title author_id (mkWorld d fs ss bo uo)
  = (Return (length bo), mkWorld d fs ss (bo ++ [mkBook None title author_id]) uo).
Proof. reflexivity. Qed.

Lemma get_Book_eq b :
  get_Book (length bo) (mkWorld d fs ss (bo ++ [b]) uo)
  = (Return b, mkWorld d fs ss (bo ++ [b]) uo).
Proof. unfold get_Book; cbn. by rewrite lookup_total_last. Qed.

Lemma put_Book_eq b b' :
  put_Book (length bo) b' (mkWorld d fs ss (bo ++ [b]) uo)
  = (Return (), mkWorld d fs ss (bo ++ [b']) uo).
Proof. unfold put_Book; cbn. by rewrite insert_last. Qed.

Lemma new_User_eq username email :
  new_User username email (mkWorld d fs ss bo uo)
  = (Return (length uo), mkWorld d fs ss bo (uo ++ [mkUser None username email])).
Proof. reflexivity. Qed.

Lemma store_call_nil :
  store_call (mkWorld d [] ss bo uo) = (Return (), mkWorld d [] ss bo uo).
Proof. reflexivity. Qed.

Lemma store_call_ok :
  store_call (mkWorld d (None :: fs) ss bo uo) = (Return (), mkWorld d fs ss bo uo).
Proof. reflexivity. Qed.

Lemma store_call_fail msg :
  store_call (mkWorld d (Some msg :: fs) ss bo uo)
  = (Raise (SQLAlchemyError msg), mkWorld d fs ss bo uo).
Proof. reflexivity. Qed.
End primitive_steps.

Lemma bind_int_ok z w : int64 z → bind_int z w = (Return (), w).
Proof. intros Hz. unfold bind_int. by rewrite decide_True. Qed.

Lemma bind_int_overflow z w :
  ¬ int64 z →
  bind_int z w
  = (Raise (OverflowError "Python int too large to convert to SQLite INTEGER"), w).
Proof. intros Hz. unfold bind_int. by rewrite decide_False. Qed.

Lemma check_rowid_ok k w : int64 k → check_rowid k w = (Return (), w).
Proof. intros Hk. unfold check_rowid. by rewrite decide_True. Qed.

Lemma check_rowid_full k w :
  ¬ int64 k →
  check_rowid k w
  = (Raise (SQLAlchemyError "(sqlite3.OperationalError) database or disk is full"), w).
Proof. intros Hk. unfold check_rowid. by rewrite decide_False. Qed.

Ltac unfold_session_ops :=
  unfold with_begin, Session_commit, Session_flush, Session_execute,
    Session_execute_bind, bind_optional_int,
    Session_query_Book_by_author, Session_get_Book, Session_refresh_Book,
    Session_query_Author_all, Session_query_Author_joinedload_all,
    Session_begin, Session_add, Session_delete, Session_rollback, Session_close,
    flush_insert, flush_delete, autobegin, put_view,
    try_finally, try_except, raise, mbind, M_bind, mret, M_ret.

Ltac step :=
  first
    [ rewrite SessionLocal_eq | rewrite get_session_eq | rewrite put_session_eq
    | rewrite get_db_eq | rewrite put_db_eq
    | rewrite new_Book_eq | rewrite get_Book_eq | rewrite put_Book_eq
    | rewrite new_User_eq
    | rewrite store_call_nil | rewrite store_call_ok | rewrite store_call_fail
    | rewrite bind_int_ok by assumption
    | rewrite bind_int_overflow by assumption
    | rewrite check_rowid_ok by assumption
    | rewrite check_rowid_full by assumption
    | rewrite lookup_insert_eq ].

Ltac run := repeat (unfold_session_ops; cbn; repeat step).
Ltac run_with H := repeat (unfold_session_ops; cbn; repeat (step || rewrite H)).

(** * The transactional demo *)

Lemma create_users_block_eq d fs ss bo uo s :
  create_users_block (length ss) (mkWorld d fs (ss ++ [s]) bo uo)
  = (Raise (Exception "Искусственная ошибка при добавлении третьего пользователя"),
     mkWorld d fs
       (ss ++ [mkSession (new s ++ [UserRef (length uo); UserRef (S (length uo))])
                 (deleted s) (transaction s)])
       bo (uo ++ [mkUser None "user1" "user1@example.com";
                  mkUser None "user2" "user2@example.com"])).
Proof.
  unfold create_users_block. run.
  rewrite length_app, <- !(assoc_L (++)). cbn. by rewrite Nat.add_1_r.
Qed.

Lemma create_users_transaction_eq w :
  create_users_transaction w
  = (Return (Some (mkStatusDict "error" rollback_message)),
     mkWorld (db w) (faults w) (sessions w ++ [fresh_session])
       (Book_objects w) (User_objects w ++ [user1; user2])).
Proof.
  destruct w as [d fs ss bo uo]. unfold create_users_transaction.
  run. rewrite create_users_block_eq. run. reflexivity.
Qed.

(** * The repository *)

(** add_book with an author_id that fits 64 bits, on a table that has a
    key left, by the failures of the store. *)
Lemma add_book_cases title author_id d fs ss bo uo :
  int64 author_id → int64 (next_rowid (books d)) →
  let b := mkBook (Some (next_rowid (books d))) title (Some author_id) in
  BookRepository.add_book book_repo title author_id (mkWorld d fs ss bo uo)
  = match fs with
    | Some msg :: fs' =>
        (Raise (SQLAlchemyError msg),
         mkWorld d fs' (ss ++ [fresh_session])
           (bo ++ [mkBook None title (Some author_id)]) uo)
    | None :: Some msg :: fs' =>
        (Raise (SQLAlchemyError msg),
         mkWorld d fs' (ss ++ [fresh_session]) (bo ++ [b]) uo)
    | None :: None :: Some msg :: fs' =>
        (Raise (SQLAlchemyError msg),
         mkWorld (insert_book d title (Some author_id)) fs'
           (ss ++ [fresh_session]) (bo ++ [b]) uo)
    | _ =>
        (Return b,
         mkWorld (insert_book d title (Some author_id)) (drop 3 fs)
           (ss ++ [fresh_session]) (bo ++ [b]) uo)
    end.
Proof.
  intros Ha Hk. unfold BookRepository.add_book, book_repo, insert_book; cbn.
  destruct fs as [|[m1|] [|[m2|] [|[m3|] fs']]]; run; reflexivity.
Qed.

(** An author_id beyond 64 bits: the driver raises before the INSERT
    reaches the store, and [except SQLAlchemyError] does not catch it. *)
Lemma add_book_overflow title author_id d fs ss bo uo :
  ¬ int64 author_id →
  BookRepository.add_book book_repo title author_id (mkWorld d fs ss bo uo)
  = (Raise (OverflowError "Python int too large to convert to SQLite INTEGER"),
     mkWorld d fs (ss ++ [fresh_session])
       (bo ++ [mkBook None title (Some author_id)]) uo).
Proof.
  intros Ha. unfold BookRepository.add_book, book_repo; cbn. run. reflexivity.
Qed.

(** A table without a key left. *)
Lemma add_book_full title author_id d fs ss bo uo :
  int64 author_id → ¬ int64 (next_rowid (books d)) →
  BookRepository.add_book book_repo title author_id (mkWorld d fs ss bo uo)
  = match fs with
    | Some msg :: fs' =>
        (Raise (SQLAlchemyError msg),
         mkWorld d fs' (ss ++ [fresh_session])
           (bo ++ [mkBook None title (Some author_id)]) uo)
    | _ =>
        (Raise (SQLAlchemyError "(sqlite3.OperationalError) database or disk is full"),
         mkWorld d (drop 1 fs) (ss ++ [fresh_session])
           (bo ++ [mkBook None title (Some author_id)]) uo)
    end.
Proof.
  intros Ha Hk. unfold BookRepository.add_book, book_repo; cbn.
  destruct fs as [|[m1|] fs']; run; reflexivity.
Qed.

Lemma get_books_by_author_eq author_id d ss bo uo :
  int64 author_id →
  BookRepository.get_books_by_author book_repo author_id (mkWorld d [] ss bo uo)
  = (Return (Book_of_row <$> select_books_by_author d author_id),
     mkWorld d [] (ss ++ [fresh_session]) bo uo).
Proof.
  intros Ha. unfold BookRepository.get_books_by_author, book_repo; cbn.
  run. reflexivity.
Qed.

Lemma delete_book_absent book_id d ss bo uo :
  int64 book_id →
  books d !! book_id = None →
  BookRepository.delete_book book_repo book_id (mkWorld d [] ss bo uo)
  = (Return false, mkWorld d [] (ss ++ [fresh_session]) bo uo).
Proof.
  intros Hb Hd. unfold BookRepository.delete_book, book_repo; cbn.
  run_with Hd. reflexivity.
Qed.

Lemma delete_book_present book_id row d ss bo uo :
  int64 book_id →
  books d !! book_id = Some row →
  BookRepository.delete_book book_repo book_id (mkWorld d [] ss bo uo)
  = (Return true, mkWorld (remove_book d book_id) [] (ss ++ [fresh_session]) bo uo).
Proof.
  intros Hb Hd. unfold BookRepository.delete_book, book_repo; cbn.
  run_with Hd. reflexivity.
Qed.

(** A book_id beyond 64 bits. *)
Lemma delete_book_overflow book_id d fs ss bo uo :
  ¬ int64 book_id →
  BookRepository.delete_book book_repo book_id (mkWorld d fs ss bo uo)
  = (Raise (OverflowError "Python int too large to convert to SQLite INTEGER"),
     mkWorld d fs (ss ++ [fresh_session]) bo uo).
Proof.
  intros Hb. unfold BookRepository.delete_book, book_repo; cbn. run. reflexivity.
Qed.

(** An add that returns had an author_id and a key of 64 bits. *)
Lemma add_book_Return_int64 title author_id w b w1 :
  BookRepository.add_book book_repo title author_id w = (Return b, w1) →
  int64 author_id ∧ int64 (next_rowid (books (db w))).
Proof.
  destruct w as [d fs ss bo uo]. cbn [db].
  destruct (decide (int64 author_id)) as [Ha|Ha];
    [|by rewrite add_book_overflow by done].
  destruct (decide (int64 (next_rowid (books d)))) as [Hk|Hk]; [done|].
  rewrite add_book_full by done. by destruct fs as [|[m1|] fs'].
Qed.

Lemma add_book_Return title author_id w b w1 :
  BookRepository.add_book book_repo title author_id w = (Return b, w1) →
  b = mkBook (Some (next_rowid (books (db w)))) title (Some author_id)
  ∧ w1 = mkWorld (insert_book (db w) title (Some author_id)) (drop 3 (faults w))
           (sessions w ++ [fresh_session]) (Book_objects w ++ [b]) (User_objects w).
Proof.
  intros Hadd. destruct (add_book_Return_int64 _ _ _ _ _ Hadd) as [Ha Hk].
  revert Hadd. destruct w as [d fs ss bo uo]. rewrite add_book_cases by done. cbn.
  destruct fs as [|[m1|] [|[m2|] [|[m3|] fs']]]; intros [= <- <-]; done.
Qed.

(** * Lazy and eager loading *)

(** Running a statement in a session that has nothing pending, on a store
    that raises no failure: the session begins its transaction the first
    time and is left alone afterwards. *)
Lemma Session_execute_fresh d ss bo uo :
  Session_execute (length ss) (mkWorld d [] (ss ++ [fresh_session]) bo uo)
  = (Return d, mkWorld d [] (ss ++ [mkSession [] [] (Some d)]) bo uo).
Proof. run. reflexivity. Qed.

Lemma Session_execute_begun d view ss bo uo :
  Session_execute (length ss) (mkWorld d [] (ss ++ [mkSession [] [] (Some view)]) bo uo)
  = (Return view, mkWorld d [] (ss ++ [mkSession [] [] (Some view)]) bo uo).
Proof. run. reflexivity. Qed.

Lemma mapM_Return {A B} (f : A → M B) (g : A → B) (l : list A) (w : World) :
  (∀ a, a ∈ l → f a w = (Return (g a), w)) →
  mapM f l w = (Return (g <$> l), w).
Proof.
  induction l as [|a l IH]; intros Hf; [done|].
  specialize (IH (λ x Hx, Hf x (list_elem_of_further _ _ _ Hx))).
  cbn. unfold mbind, M_bind in *. rewrite Hf by left. by rewrite IH.
Qed.

Lemma get_authors_lazy_eq d ss bo uo :
  get_authors_lazy (mkWorld d [] ss bo uo)
  = (Return (author_dicts d), mkWorld d [] (ss ++ [fresh_session]) bo uo).
Proof.
  unfold get_authors_lazy, try_finally, mbind, M_bind.
  rewrite SessionLocal_eq. unfold Session_query_Author_all, mbind, M_bind.
  rewrite Session_execute_fresh. cbn. unfold authors_result.
  rewrite (mapM_Return _
    (λ a, mkAuthorDict (Author_id a) (Author_name a)
            (Book_title <$> (Book_of_row <$> select_books_by_author d (Author_id a))))).
  - unfold mret, M_ret, Session_close. rewrite put_session_eq.
    unfold author_dicts. by rewrite <- list_fmap_compose.
  - intros a [row [-> _]]%list_elem_of_fmap. unfold Author_books_get; cbn.
    unfold mbind, M_bind. by rewrite Session_execute_begun.
Qed.

Lemma add_joined_row_new row acc :
  row.1.1 ∉ Author_id <$> acc →
  add_joined_row row acc = acc ++ [mkAuthor row.1.1 row.1.2 (Some (option_list row.2))].
Proof.
  induction acc as [|a acc IH]; cbn; [done|].
  intros [Ha Hacc]%not_elem_of_cons.
  rewrite decide_False by done. by rewrite IH.
Qed.

Lemma add_joined_row_seen k n b bs acc :
  k ∉ Author_id <$> acc →
  add_joined_row ((k, n), Some b) (acc ++ [mkAuthor k n (Some bs)])
  = acc ++ [mkAuthor k n (Some (bs ++ [b]))].
Proof.
  induction acc as [|a acc IH]; cbn.
  - intros _. by rewrite decide_True.
  - intros [Ha Hacc]%not_elem_of_cons.
    rewrite decide_False by done. by rewrite IH.
Qed.

Lemma foldl_add_joined_rows_seen k n (bs rows : list Book) acc :
  k ∉ Author_id <$> acc →
  foldl (λ acc row, add_joined_row row acc) (acc ++ [mkAuthor k n (Some bs)])
        ((λ b, ((k, n), Some b)) <$> rows)
  = acc ++ [mkAuthor k n (Some (bs ++ rows))].
Proof.
  intros Hk. revert bs. induction rows as [|b rows IH]; intros bs; cbn.
  - by rewrite (right_id_L [] (++)).
  - rewrite add_joined_row_seen by done. rewrite IH.
    by rewrite <- (assoc_L (++)).
Qed.

Lemma foldl_add_joined_rows_author view (a : Z * string) acc :
  a.1 ∉ Author_id <$> acc →
  foldl (λ acc row, add_joined_row row acc) acc
        (match select_books_by_author view a.1 with
         | [] => [(a, None)]
         | rows => (λ row, (a, Some (Book_of_row row))) <$> rows
         end)
  = acc ++ [loaded_author view a].
Proof.
  intros Ha. unfold loaded_author.
  destruct (select_books_by_author view a.1) as [|r rs]; cbn.
  - by rewrite add_joined_row_new.
  - rewrite add_joined_row_new by done. cbn.
    destruct a as [k n]; cbn in *.
    rewrite (list_fmap_compose Book_of_row (λ b, ((k, n), Some b))).
    by rewrite foldl_add_joined_rows_seen.
Qed.

Lemma foldl_add_joined_rows view (l : list (Z * string)) acc :
  NoDup l.*1 →
  (∀ k, k ∈ Author_id <$> acc → k ∉ l.*1) →
  foldl (λ acc row, add_joined_row row acc) acc
        (a ← l;
         match select_books_by_author view a.1 with
         | [] => [(a, None)]
         | rows => (λ row, (a, Some (Book_of_row row))) <$> rows
         end)
  = acc ++ (loaded_author view <$> l).
Proof.
  revert acc. induction l as [|a l IH]; intros acc Hnd Hacc; cbn.
  - by rewrite (right_id_L [] (++)).
  - apply NoDup_cons in Hnd as [Ha Hnd].
    rewrite foldl_app, foldl_add_joined_rows_author.
    + rewrite IH; [by rewrite <- (assoc_L (++))|done|].
      intros k. rewrite fmap_app, elem_of_app. cbn.
      intros [Hk|Hk%list_elem_of_singleton].
      * apply Hacc in Hk. by apply not_elem_of_cons in Hk as [_ ?].
      * by subst k.
    + intros Hin. apply Hacc in Hin. apply Hin. left.
Qed.

Lemma joined_load_eq view :
  foldl (λ acc row, add_joined_row row acc) [] (left_outer_join view)
  = loaded_author view <$> map_to_list (authors view).
Proof.
  unfold left_outer_join. rewrite foldl_add_joined_rows; [done| |].
  - apply NoDup_fst_map_to_list.
  - intros k Hk. by apply elem_of_nil in Hk.
Qed.

Lemma get_authors_eager_eq d ss bo uo :
  get_authors_eager (mkWorld d [] ss bo uo)
  = (Return (author_dicts d), mkWorld d [] (ss ++ [fresh_session]) bo uo).
Proof.
  unfold get_authors_eager, try_finally, mbind, M_bind.
  rewrite SessionLocal_eq. unfold Session_query_Author_joinedload_all, mbind, M_bind.
  rewrite Session_execute_fresh. cbn. unfold authors_result.
  rewrite joined_load_eq.
  rewrite (mapM_Return _
    (λ a, mkAuthorDict (Author_id a) (Author_name a)
            (Book_title <$> default [] (Author_books a)))).
  - unfold mret, M_ret, Session_close. rewrite put_session_eq.
    unfold author_dicts. by rewrite <- list_fmap_compose.
  - by intros a [row [-> _]]%list_elem_of_fmap.
Qed.

(** * The aggregate query *)

Lemma get_authors_book_counts_eq d ss bo uo :
  get_authors_book_counts (mkWorld d [] ss bo uo)
  = (Return ((λ row, mkBookCount row.1 row.2) <$> group_by_name_count (inner_join d)),
     mkWorld d [] ss bo uo).
Proof.
  unfold get_authors_book_counts, Table_autoload, connection_execute_stmt.
  run. reflexivity.
Qed.

Lemma bind_nil {A B} (f : A → list B) (l : list A) :
  (∀ x, x ∈ l → f x = []) → l ≫= f = [].
Proof.
  induction l as [|x l IH]; intros Hf; cbn; [done|].
  rewrite Hf by left. rewrite IH; [done|]. intros; apply Hf; by right.
Qed.

Lemma bind_only {A B} (f : A → list B) (l : list A) (a : A) :
  NoDup l → a ∈ l → (∀ x, x ∈ l → x ≠ a → f x = []) → l ≫= f = f a.
Proof.
  induction l as [|x l IH]; intros Hnd Ha Hf; [by apply elem_of_nil in Ha|].
  apply NoDup_cons in Hnd as [Hx Hnd]. cbn.
  apply elem_of_cons in Ha as [->|Ha].
  - rewrite (bind_nil f l); [by rewrite (right_id_L [] (++))|].
    intros y Hy. apply Hf; [by right|]. by intros ->.
  - rewrite (Hf x); [|left|by intros ->]. cbn.
    apply IH; [done..|]. intros; apply Hf; [by right|done].
Qed.

(** When [a1] is the only author with books, the join has the rows of
    [a1] and no other. *)
Lemma inner_join_only d a1 n1 :
  authors d !! a1 = Some n1 →
  (∀ a, a ≠ a1 → is_Some (authors d !! a) → select_books_by_author d a = []) →
  inner_join d = (λ row, (n1, row.1)) <$> select_books_by_author d a1.
Proof.
  intros Ha1 Hothers. unfold inner_join.
  rewrite (bind_only _ _ (a1, n1)); [done|apply NoDup_map_to_list| |].
  - by apply elem_of_map_to_list.
  - intros [a n] Hin%elem_of_map_to_list Hne. cbn.
    rewrite Hothers; [done| |by eexists].
    intros ->. apply Hne. congruence.
Qed.

(** A book row is fresh under the key SQLite assigns, so an INSERT keeps
    every row that is there. *)
Lemma foldr_max_ge (k : Z) (ks : list Z) (x : Z) :
  x ∈ k :: ks → (x ≤ foldr Z.max k ks)%Z.
Proof.
  induction ks as [|y ks IH]; cbn.
  - intros ->%list_elem_of_singleton. lia.
  - rewrite !elem_of_cons. intros [->|[->|Hx]].
    + specialize (IH (list_elem_of_here _ _)). lia.
    + lia.
    + specialize (IH (list_elem_of_further _ _ _ Hx)). lia.
Qed.

Lemma next_rowid_fresh {V} (t : gmap Z V) : t !! next_rowid t = None.
Proof.
  assert (∀ k ks, (map_to_list t).*1 = k :: ks →
            t !! (foldr Z.max k ks + 1)%Z = None) as Hmax.
  { intros k ks Hks.
    destruct (t !! (foldr Z.max k ks + 1)%Z) as [v|] eqn:Hv; [|done]. exfalso.
    apply elem_of_map_to_list in Hv.
    apply (list_elem_of_fmap_2 fst) in Hv. cbn in Hv.
    rewrite Hks in Hv. apply foldr_max_ge in Hv. lia. }
  unfold next_rowid.
  destruct ((map_to_list t).*1) as [|k ks] eqn:Hks.
  - destruct (t !! 1%Z) as [v|] eqn:Hv; [|done]. exfalso.
    apply elem_of_map_to_list in Hv.
    apply (list_elem_of_fmap_2 fst) in Hv. rewrite Hks in Hv.
    by apply elem_of_nil in Hv.
  - cbn zeta. destruct (decide _) as [_|_]; [by apply Hmax|].
    destruct (list_find _ _) as [[i k']|] eqn:Hfind; cbn.
    + by apply list_find_Some in Hfind as (_ & Hnone & _).
    + by apply Hmax.
Qed.


(** * Atomicity of the transactional demo *)

(** C1: create_users_transaction adds two Users, raises the injected
    failure and returns; in the state it returns in, the database is the
    database it was called in, so neither User is in the store. *)
Theorem create_users_transaction_atomic (w : World) :
  ∃ r w', create_users_transaction w = (Return r, w')
          ∧ db w' = db w
          ∧ users (db w') = users (db w).
Proof.
  rewrite create_users_transaction_eq. by eexists _, _.
Qed.

(** C9: whatever the state, create_users_transaction returns the error
    dict and never anything else; its block raises after the second
    [session.add], so exactly two User objects are ever constructed (the
    third is out of reach), and the database is left as it was. *)
Theorem create_users_transaction_always_error (w : World) :
  ∃ w', create_users_transaction w
        = (Return (Some (mkStatusDict "error" rollback_message)), w')
        ∧ db w' = db w
        ∧ User_objects w' = User_objects w ++ [user1; user2]
        ∧ ∀ session w0, ∃ w1,
            create_users_block session w0
            = (Raise (Exception "Искусственная ошибка при добавлении третьего пользователя"), w1)
            ∧ User_objects w1 = User_objects w0 ++ [user1; user2].
Proof.
  rewrite create_users_transaction_eq. eexists. repeat split.
  intros session w0. eexists. split; [reflexivity|].
  cbn. by rewrite <- (assoc_L (++)).
Qed.

(** * Lazy and eager loading agree *)

Lemma equivalent_data_refl r : equivalent_data r r.
Proof.
  exists r. split; [done|]. by apply Forall2_same_length_lookup_2; [|intros; simplify_eq].
Qed.

(** C2: on a store that raises no failure, whatever authors and books it
    holds, get_authors_lazy and get_authors_eager both return, and return
    the same authors with the same book titles, compared without regard to
    the order of the authors or of the titles of an author. *)
Theorem lazy_eager_equivalent (w : World) :
  faults w = [] →
  ∃ r1 w1 r2 w2,
    get_authors_lazy w = (Return r1, w1)
    ∧ get_authors_eager w = (Return r2, w2)
    ∧ equivalent_data r1 r2.
Proof.
  destruct w as [d fs ss bo uo]; cbn. intros ->.
  rewrite get_authors_lazy_eq, get_authors_eager_eq.
  eexists _, _, _, _. repeat split. apply equivalent_data_refl.
Qed.

Lemma lazy_eager_equivalent_witness :
  faults (world_of db1 []) = []
  ∧ ∃ r1 w1 r2 w2,
      get_authors_lazy (world_of db1 []) = (Return r1, w1)
      ∧ get_authors_eager (world_of db1 []) = (Return r2, w2)
      ∧ equivalent_data r1 r2.
Proof.
  split; [reflexivity|]. apply (lazy_eager_equivalent (world_of db1 [])). reflexivity.
Defined.

(** * The aggregate query on the two-author scenario *)

(** C4: on a store that raises no failure, when author [a1] has exactly two
    books and [a2], like every author other than [a1], has none,
    get_authors_book_counts returns the row of [a1] with [book_count = 2]
    and nothing else: no row comes from [a2]. *)
Theorem book_counts_two_and_zero (w : World) (a1 a2 : Z) (n1 n2 : string) :
  faults w = [] →
  a1 ≠ a2 →
  authors (db w) !! a1 = Some n1 →
  authors (db w) !! a2 = Some n2 →
  length (select_books_by_author (db w) a1) = 2%nat →
  select_books_by_author (db w) a2 = [] →
  map_Forall (λ a _, a = a1 ∨ select_books_by_author (db w) a = []) (authors (db w)) →
  ∃ r w',
    get_authors_book_counts w = (Return r, w')
    ∧ r = [mkBookCount n1 2]
    ∧ mkBookCount n1 2 ∈ r
    ∧ (n1 ≠ n2 → ∀ c, mkBookCount n2 c ∉ r).
Proof.
  destruct w as [d fs ss bo uo]; cbn.
  intros -> Hne Ha1 Ha2 Hlen Hzero Hothers.
  rewrite get_authors_book_counts_eq. eexists _, _. split; [reflexivity|].
  assert (group_by_name_count (inner_join d) = [(n1, 2)]) as ->.
  { rewrite (inner_join_only d a1 n1); [|done|].
    - destruct (select_books_by_author d a1) as [|r1 [|r2 [|r3 rs]]]; try done.
      unfold group_by_name_count. cbn.
      destruct (decide_rel elem_of n1 [n1]) as [_|Hn]; [|by destruct Hn; left].
      destruct (decide_rel elem_of n1 []) as [Hn|_]; [by apply elem_of_nil in Hn|].
      cbn. by rewrite !decide_True by done.
    - intros a Ha [n Hn]. by destruct (Hothers a n Hn). }
  cbn. split; [done|]. split; [left|].
  intros Hn c [=]%list_elem_of_singleton. done.
Qed.

Lemma book_counts_two_and_zero_witness :
  faults (world_of db1 []) = []
  ∧ (1 : Z) ≠ 2
  ∧ authors (db (world_of db1 [])) !! 1 = Some "A"
  ∧ authors (db (world_of db1 [])) !! 2 = Some "B"
  ∧ length (select_books_by_author (db (world_of db1 [])) 1) = 2%nat
  ∧ select_books_by_author (db (world_of db1 [])) 2 = []
  ∧ map_Forall (λ a _, a = 1 ∨ select_books_by_author (db (world_of db1 [])) a = [])
               (authors (db (world_of db1 [])))
  ∧ ∃ r w',
      get_authors_book_counts (world_of db1 []) = (Return r, w')
      ∧ r = [mkBookCount "A" 2]
      ∧ mkBookCount "A" 2 ∈ r
      ∧ ("A" ≠ "B" → ∀ c, mkBookCount "B" c ∉ r).
Proof.
  assert (map_Forall (λ a _, a = 1 ∨ select_books_by_author db1 a = []) (authors db1))
    as Hothers by compute_done.
  repeat split; try (vm_compute; congruence); try exact Hothers.
  apply (book_counts_two_and_zero (world_of db1 []) 1 2 "A" "B");
    try (vm_compute; congruence); exact Hothers.
Defined.

(** * The repository *)

(** C5: when add_book(title, author_id) returns a Book and the store raises
    no failure afterwards, get_books_by_author(author_id) returns a list
    with that Book in it, whose title is [title] and whose author_id is
    [author_id]. *)
Theorem add_then_list_by_author (w : World) (title : string) (author_id : Z)
    (b : Book) (w1 : World) :
  BookRepository.add_book book_repo title author_id w = (Return b, w1) →
  faults w1 = [] →
  ∃ bs w2,
    BookRepository.get_books_by_author book_repo author_id w1 = (Return bs, w2)
    ∧ b ∈ bs
    ∧ Book_title b = title
    ∧ Book_author_id b = Some author_id.
Proof.
  intros Hadd Hfaults. destruct (add_book_Return_int64 _ _ _ _ _ Hadd) as [Ha _].
  apply add_book_Return in Hadd as [-> ->]. cbn in Hfaults. rewrite Hfaults.
  rewrite get_books_by_author_eq by done. eexists _, _. split; [reflexivity|].
  split; [|done].
  apply list_elem_of_fmap.
  exists (next_rowid (books (db w)), (title, Some author_id)). split; [done|].
  apply list_elem_of_filter. split; [done|].
  apply elem_of_map_to_list. cbn. apply lookup_insert_eq.
Qed.

Lemma add_then_list_by_author_witness :
  let b := mkBook (Some 3) "T" (Some 1) in
  let w1 := mkWorld (insert_book db1 "T" (Some 1)) [] [fresh_session] [b] [] in
  BookRepository.add_book book_repo "T" 1 (world_of db1 []) = (Return b, w1)
  ∧ faults w1 = []
  ∧ ∃ bs w2,
      BookRepository.get_books_by_author book_repo 1 w1 = (Return bs, w2)
      ∧ b ∈ bs
      ∧ Book_title b = "T"
      ∧ Book_author_id b = Some 1.
Proof.
  intros b w1.
  assert (BookRepository.add_book book_repo "T" 1 (world_of db1 []) = (Return b, w1))
    as Hadd by (vm_compute; reflexivity).
  split; [exact Hadd|]. split; [reflexivity|].
  exact (add_then_list_by_author (world_of db1 []) "T" 1 b w1 Hadd eq_refl).
Defined.

(** C6, as amended: on a store that raises no failure, delete_book(book_id)
    of an id that fits a signed 64-bit integer and has no row returns
    [false] and leaves the database as it was, and so does a second call;
    of an id that has a row it returns [true], and the committed database
    is the former one without that row. *)
Theorem delete_book_spec (w : World) (book_id : Z) :
  faults w = [] →
  int64 book_id →
  match books (db w) !! book_id with
  | None =>
      ∃ w1 w2,
        BookRepository.delete_book book_repo book_id w = (Return false, w1)
        ∧ db w1 = db w
        ∧ BookRepository.delete_book book_repo book_id w1 = (Return false, w2)
        ∧ db w2 = db w
  | Some _ =>
      ∃ w1,
        BookRepository.delete_book book_repo book_id w = (Return true, w1)
        ∧ db w1 = remove_book (db w) book_id
        ∧ books (db w1) !! book_id = None
        ∧ ∀ k, k ≠ book_id → books (db w1) !! k = books (db w) !! k
  end.
Proof.
  destruct w as [d fs ss bo uo]; cbn [db faults]. intros -> Hb.
  destruct (books d !! book_id) as [row|] eqn:Hrow.
  - rewrite (delete_book_present _ row) by done. eexists. split; [reflexivity|].
    cbn. split; [done|]. split; [apply lookup_delete_eq|].
    intros k Hk. by apply lookup_delete_ne.
  - exists (mkWorld d [] (ss ++ [fresh_session]) bo uo),
           (mkWorld d [] ((ss ++ [fresh_session]) ++ [fresh_session]) bo uo).
    by rewrite !delete_book_absent by done.
Qed.

Lemma delete_book_spec_witness :
  faults (world_of db1 []) = []
  ∧ int64 3 ∧ int64 2
  ∧ (∃ w1 w2,
       BookRepository.delete_book book_repo 3 (world_of db1 []) = (Return false, w1)
       ∧ db w1 = db1
       ∧ BookRepository.delete_book book_repo 3 w1 = (Return false, w2)
       ∧ db w2 = db1)
  ∧ (∃ w1,
       BookRepository.delete_book book_repo 2 (world_of db1 []) = (Return true, w1)
       ∧ db w1 = remove_book db1 2
       ∧ books (db w1) !! 2 = None
       ∧ ∀ k, k ≠ 2 → books (db w1) !! k = books db1 !! k).
Proof.
  assert (int64 3) as H3 by (unfold int64, min_int64, max_int64; lia).
  assert (int64 2) as H2 by (unfold int64, min_int64, max_int64; lia).
  split; [reflexivity|]. split; [exact H3|]. split; [exact H2|]. split.
  - exact (delete_book_spec (world_of db1 []) 3 eq_refl H3).
  - exact (delete_book_spec (world_of db1 []) 2 eq_refl H2).
Defined.

(** C6, as stated, fails: the id [2 ^ 63] has no row in [db1] and the
    store raises no failure, yet delete_book does not return [false]: the
    driver cannot bind the id and the call raises OverflowError. *)
Lemma delete_book_out_of_range :
  faults (world_of db1 []) = []
  ∧ books (db (world_of db1 [])) !! (2 ^ 63)%Z = None
  ∧ (∃ w1, BookRepository.delete_book book_repo (2 ^ 63) (world_of db1 [])
           = (Raise (OverflowError "Python int too large to convert to SQLite INTEGER"), w1))
  ∧ ¬ (∃ w1 w2,
         BookRepository.delete_book book_repo (2 ^ 63) (world_of db1 []) = (Return false, w1)
         ∧ db w1 = db (world_of db1 [])
         ∧ BookRepository.delete_book book_repo (2 ^ 63) w1 = (Return false, w2)
         ∧ db w2 = db (world_of db1 [])).
Proof.
  assert (¬ int64 (2 ^ 63)) as Hb by (unfold int64, min_int64, max_int64; lia).
  split; [reflexivity|]. split; [by vm_compute|].
  unfold world_of. rewrite delete_book_overflow by done.
  split; [by eexists|]. by intros (w1 & w2 & [=] & _).
Qed.

(** C10: the Book model admits a row whose author_id is NULL, but the
    create path takes an integer author_id: a Book that add_book returns,
    from a BookCreate request through the repository, has its author_id set
    to the requested one, in the object and in the row of the database. *)
Theorem add_book_sets_author_id (book : BookCreate) (w : World) (b : Book) (w1 : World) :
  add_book book w = (Return b, w1) →
  Book_author_id b = Some (BookCreate_author_id book)
  ∧ (∃ k, Book_id b = Some k
          ∧ books (db w1) !! k
            = Some (BookCreate_title book, Some (BookCreate_author_id book)))
  ∧ BookRepository.add_book book_repo (BookCreate_title book)
      (BookCreate_author_id book) w = (Return b, w1)
  ∧ (∃ d k title, books d !! k = Some (title, None)).
Proof.
  unfold add_book, try_except, mbind, M_bind, mret, M_ret.
  destruct (BookRepository.add_book _ _ _ _) as [[b'|e] w'] eqn:Hadd; [|done].
  intros [= <- <-]. apply add_book_Return in Hadd as Hret. destruct Hret as [-> ->].
  repeat split; cbn.
  - eexists. split; [done|]. apply lookup_insert_eq.
  - exists (mkDatabase ∅ {[1 := ("", None)]} ∅), 1, "". apply lookup_singleton_eq.
Qed.

Lemma add_book_sets_author_id_witness :
  let book := mkBookCreate "T" 1 in
  let b := mkBook (Some 3) "T" (Some 1) in
  let w1 := mkWorld (insert_book db1 "T" (Some 1)) [] [fresh_session] [b] [] in
  add_book book (world_of db1 []) = (Return b, w1)
  ∧ Book_author_id b = Some (BookCreate_author_id book)
  ∧ (∃ k, Book_id b = Some k
          ∧ books (db w1) !! k
            = Some (BookCreate_title book, Some (BookCreate_author_id book)))
  ∧ BookRepository.add_book book_repo (BookCreate_title book)
      (BookCreate_author_id book) (world_of db1 []) = (Return b, w1)
  ∧ (∃ d k title, books d !! k = Some (title, None)).
Proof.
  intros book b w1.
  assert (add_book book (world_of db1 []) = (Return b, w1))
    as Hadd by (vm_compute; reflexivity).
  split; [exact Hadd|].
  exact (add_book_sets_author_id book (world_of db1 []) b w1 Hadd).
Defined.

(** * Where the code departs from the specification *)

(** What the repository does keep: a delete keeps referential integrity,
    and so does an add whose author exists. *)
Lemma remove_book_keeps_integrity d book_id :
  referential_integrity d → referential_integrity (remove_book d book_id).
Proof.
  intros Hd k title a. cbn. intros Hk. apply (Hd k title a).
  by apply lookup_delete_Some in Hk as [_ ?].
Qed.

Lemma insert_book_keeps_integrity d title a :
  referential_integrity d → is_Some (authors d !! a) →
  referential_integrity (insert_book d title (Some a)).
Proof.
  intros Hd Ha k title' a'. cbn.
  intros [[_ [= _ <-]]|[_ Hk]]%lookup_insert_Some; [done|]. by apply (Hd k title' a').
Qed.

(** An add whose author_id is the id of no Author is committed all the
    same, and breaks it. *)
Lemma add_book_breaks_integrity title a d ss bo uo :
  int64 a → int64 (next_rowid (books d)) →
  authors d !! a = None →
  ∃ b w',
    BookRepository.add_book book_repo title a (mkWorld d [] ss bo uo) = (Return b, w')
    ∧ ¬ referential_integrity (db w').
Proof.
  intros Hi Hk Ha. rewrite add_book_cases by done. cbn. eexists _, _. split; [reflexivity|].
  cbn. intros Hint.
  destruct (Hint (next_rowid (books d)) title a) as [n Hn]; cbn in *.
  - apply lookup_insert_eq.
  - congruence.
Qed.

(** C3: add_book does not check that the author exists, and the store does
    not either: on the empty database, which keeps referential integrity,
    add_book("T", 999) returns the Book and commits its row, whose
    author_id 999 is the id of no Author. *)
Theorem add_book_dangling_author :
  referential_integrity empty_database
  ∧ ∃ w',
      BookRepository.add_book book_repo "T" 999 (world_of empty_database [])
      = (Return (mkBook (Some 1) "T" (Some 999)), w')
      ∧ books (db w') !! 1 = Some ("T", Some 999)
      ∧ authors (db w') !! 999 = None
      ∧ ¬ referential_integrity (db w').
Proof.
  split; [by intros k title a Hk|].
  eexists. split; [vm_compute; reflexivity|].
  split; [by vm_compute|]. split; [by vm_compute|].
  intros Hint. destruct (Hint 1 "T" 999) as [n Hn]; [by vm_compute|].
  by vm_compute in Hn.
Qed.

(** A failure of the INSERT or of the COMMIT of add_book is propagated,
    with the database as it was and the session closed. *)
Lemma add_book_failure_before_commit title author_id d fs ss bo uo msg :
  int64 author_id → int64 (next_rowid (books d)) →
  fs = Some msg :: drop 1 fs ∨ fs = None :: Some msg :: drop 2 fs →
  ∃ w', BookRepository.add_book book_repo title author_id (mkWorld d fs ss bo uo)
        = (Raise (SQLAlchemyError msg), w')
        ∧ db w' = d
        ∧ Session_closed (length ss) w'.
Proof.
  intros Hi Hk. rewrite add_book_cases by done. cbn. unfold Session_closed.
  intros [->| ->]; cbn; eexists; (split; [reflexivity|]); cbn;
    (split; [done|]); by apply list_lookup_middle.
Qed.

(** A failure of the refresh comes after the commit: it is propagated and
    the session is closed, but the row is in the database. *)
Lemma add_book_failure_in_refresh title author_id d fs ss bo uo msg :
  int64 author_id → int64 (next_rowid (books d)) →
  ∃ w',
    BookRepository.add_book book_repo title author_id
      (mkWorld d (None :: None :: Some msg :: fs) ss bo uo)
    = (Raise (SQLAlchemyError msg), w')
    ∧ db w' = insert_book d title (Some author_id)
    ∧ db w' ≠ d
    ∧ Session_closed (length ss) w'.
Proof.
  intros Hi Hk. rewrite add_book_cases by done. cbn.
  eexists. split; [reflexivity|]. cbn.
  split; [done|]. split; [|by apply list_lookup_middle].
  intros Heq. apply (f_equal (λ d', books d' !! next_rowid (books d))) in Heq.
  cbn in Heq. by rewrite lookup_insert_eq, next_rowid_fresh in Heq.
Qed.

(** C7: when the store fails in the refresh that follows the commit,
    add_book raises the failure and closes its session, but the rollback
    comes after the commit: the Book, which was not in the database, stays
    in it. *)
Theorem add_book_failure_after_commit :
  ∃ w',
    BookRepository.add_book book_repo "T" 1
      (world_of db1 [None; None; Some "(sqlite3.OperationalError)"])
    = (Raise (SQLAlchemyError "(sqlite3.OperationalError)"), w')
    ∧ Session_closed 0 w'
    ∧ books (db w') !! 3 = Some ("T", Some 1)
    ∧ books db1 !! 3 = None
    ∧ db w' ≠ db1.
Proof.
  eexists. split; [vm_compute; reflexivity|].
  split; [by vm_compute|]. split; [by vm_compute|]. split; [by vm_compute|].
  intros Heq. apply (f_equal (λ d, books d !! 3)) in Heq. by vm_compute in Heq.
Qed.

(** The rows of the aggregate have pairwise different names. *)
Lemma group_by_name_count_NoDup rows : NoDup (group_by_name_count rows).*1.
Proof.
  unfold group_by_name_count.
  assert (∀ (f : string → Z) (l : list string), ((λ n, (n, f n)) <$> l).*1 = l) as ->.
  { intros f l. induction l as [|n l IH]; cbn; congruence. }
  apply NoDup_remove_dups.
Qed.

(** C8: the aggregate groups by the name, not by the author: the authors 1
    and 2 of [db2], both named "A" and with one book each, end in a single
    row with [book_count = 2]. *)
Theorem book_counts_merges_same_name :
  authors db2 !! 1 = Some "A"
  ∧ authors db2 !! 2 = Some "A"
  ∧ length (select_books_by_author db2 1) = 1%nat
  ∧ length (select_books_by_author db2 2) = 1%nat
  ∧ get_authors_book_counts (world_of db2 [])
    = (Return [mkBookCount "A" 2], world_of db2 []).
Proof. repeat split; by vm_compute. Qed.

(** * Further properties of the repository *)

(** What add_book, get_books_by_author and delete_book do, by the failures
    of the store. *)
Lemma get_books_by_author_cases author_id d fs ss bo uo :
  int64 author_id →
  BookRepository.get_books_by_author book_repo author_id (mkWorld d fs ss bo uo)
  = match fs with
    | Some msg :: fs' =>
        (Raise (SQLAlchemyError msg), mkWorld d fs' (ss ++ [fresh_session]) bo uo)
    | _ =>
        (Return (Book_of_row <$> select_books_by_author d author_id),
         mkWorld d (drop 1 fs) (ss ++ [fresh_session]) bo uo)
    end.
Proof.
  intros Ha. unfold BookRepository.get_books_by_author, book_repo; cbn.
  destruct fs as [|[m1|] fs']; run; reflexivity.
Qed.

(** An author_id beyond 64 bits: the driver raises before the SELECT
    reaches the store; the session is closed all the same. *)
Lemma get_books_by_author_overflow author_id d fs ss bo uo :
  ¬ int64 author_id →
  BookRepository.get_books_by_author book_repo author_id (mkWorld d fs ss bo uo)
  = (Raise (OverflowError "Python int too large to convert to SQLite INTEGER"),
     mkWorld d fs (ss ++ [fresh_session]) bo uo).
Proof.
  intros Ha. unfold BookRepository.get_books_by_author, book_repo; cbn.
  run. reflexivity.
Qed.

Lemma delete_book_cases book_id d fs ss bo uo :
  int64 book_id →
  BookRepository.delete_book book_repo book_id (mkWorld d fs ss bo uo)
  = match fs with
    | Some msg :: fs' =>
        (Raise (SQLAlchemyError msg), mkWorld d fs' (ss ++ [fresh_session]) bo uo)
    | _ =>
        match books d !! book_id with
        | None => (Return false, mkWorld d (drop 1 fs) (ss ++ [fresh_session]) bo uo)
        | Some _ =>
            match drop 1 fs with
            | Some msg :: fs' =>
                (Raise (SQLAlchemyError msg),
                 mkWorld d fs' (ss ++ [fresh_session]) bo uo)
            | None :: Some msg :: fs' =>
                (Raise (SQLAlchemyError msg),
                 mkWorld d fs' (ss ++ [fresh_session]) bo uo)
            | _ =>
                (Return true,
                 mkWorld (remove_book d book_id) (drop 3 fs)
                   (ss ++ [fresh_session]) bo uo)
            end
        end
    end.
Proof.
  intros Hb. unfold BookRepository.delete_book, book_repo, remove_book; cbn.
  destruct (books d !! book_id) as [row|] eqn:Hrow;
    destruct fs as [|[m1|] [|[m2|] [|[m3|] fs']]]; run_with Hrow; reflexivity.
Qed.

Lemma healthy_drop n fs : healthy fs → healthy (drop n fs).
Proof. apply Forall_drop. Qed.

Lemma healthy_cons_inv f fs : healthy (f :: fs) → f = None ∧ healthy fs.
Proof. intros H. by apply Forall_cons in H. Qed.

Lemma remove_insert_book d title author_id :
  remove_book (insert_book d title author_id) (next_rowid (books d)) = d.
Proof.
  destruct d as [a b u]. unfold remove_book, insert_book; cbn.
  by rewrite delete_insert_id by apply next_rowid_fresh.
Qed.

Lemma delete_book_Return_true book_id w w1 :
  BookRepository.delete_book book_repo book_id w = (Return true, w1) →
  is_Some (books (db w) !! book_id)
  ∧ w1 = mkWorld (remove_book (db w) book_id) (drop 3 (faults w))
           (sessions w ++ [fresh_session]) (Book_objects w) (User_objects w).
Proof.
  destruct w as [d fs ss bo uo].
  destruct (decide (int64 book_id)) as [Hb|Hb];
    [|by rewrite delete_book_overflow by done].
  rewrite delete_book_cases by done. cbn.
  destruct (books d !! book_id) as [row|] eqn:Hrow;
    destruct fs as [|[m1|] [|[m2|] [|[m3|] fs']]]; intros [= <-]; eauto.
Qed.




(** X2: the Book that add_book returns has an id that no book had; its row
    is the new one and the other rows are as before. *)
Theorem add_book_fresh_id (w : World) (title : string) (author_id : Z)
    (b : Book) (w1 : World) :
  BookRepository.add_book book_repo title author_id w = (Return b, w1) →
  ∃ k, Book_id b = Some k
       ∧ books (db w) !! k = None
       ∧ books (db w1) !! k = Some (title, Some author_id)
       ∧ ∀ k', k' ≠ k → books (db w1) !! k' = books (db w) !! k'.
Proof.
  intros [-> ->]%add_book_Return. eexists. split; [reflexivity|]. cbn.
  split; [apply next_rowid_fresh|]. split; [apply lookup_insert_eq|].
  intros k' Hk'. by apply lookup_insert_ne.
Qed.

Lemma add_book_fresh_id_witness :
  let b := mkBook (Some 3) "T" (Some 1) in
  let w1 := mkWorld (insert_book db1 "T" (Some 1)) [] [fresh_session] [b] [] in
  BookRepository.add_book book_repo "T" 1 (world_of db1 []) = (Return b, w1)
  ∧ ∃ k, Book_id b = Some k
         ∧ books (db (world_of db1 [])) !! k = None
         ∧ books (db w1) !! k = Some ("T", Some 1)
         ∧ ∀ k', k' ≠ k → books (db w1) !! k' = books (db (world_of db1 [])) !! k'.
Proof.
  intros b w1.
  assert (BookRepository.add_book book_repo "T" 1 (world_of db1 []) = (Return b, w1))
    as Hadd by (vm_compute; reflexivity).
  split; [exact Hadd|].
  exact (add_book_fresh_id (world_of db1 []) "T" 1 b w1 Hadd).
Defined.

(** X3: two adds in a row give the two Books different ids, and both rows
    are in the database afterwards. *)
Theorem add_book_twice (w : World) (t1 t2 : string) (a1 a2 : Z)
    (b1 b2 : Book) (w1 w2 : World) :
  BookRepository.add_book book_repo t1 a1 w = (Return b1, w1) →
  BookRepository.add_book book_repo t2 a2 w1 = (Return b2, w2) →
  ∃ k1 k2, Book_id b1 = Some k1 ∧ Book_id b2 = Some k2
           ∧ k1 ≠ k2
           ∧ books (db w2) !! k1 = Some (t1, Some a1)
           ∧ books (db w2) !! k2 = Some (t2, Some a2).
Proof.
  intros [-> ->]%add_book_Return [-> ->]%add_book_Return.
  eexists _, _. split; [reflexivity|]. split; [reflexivity|]. cbn.
  assert (next_rowid (books (db w))
          ≠ next_rowid (<[next_rowid (books (db w)):=(t1, Some a1)]> (books (db w))))
    as Hne.
  { intros Heq.
    pose proof (next_rowid_fresh
                  (<[next_rowid (books (db w)):=(t1, Some a1)]> (books (db w)))) as Hf.
    rewrite <- Heq in Hf. by rewrite lookup_insert_eq in Hf. }
  split; [done|]. split; [|apply lookup_insert_eq].
  rewrite lookup_insert_ne by done. apply lookup_insert_eq.
Qed.

Lemma add_book_twice_witness :
  let b1 := mkBook (Some 3) "T" (Some 1) in
  let b2 := mkBook (Some 4) "U" (Some 2) in
  let w1 := mkWorld (insert_book db1 "T" (Some 1)) [] [fresh_session] [b1] [] in
  let w2 := mkWorld (insert_book (insert_book db1 "T" (Some 1)) "U" (Some 2)) []
              [fresh_session; fresh_session] [b1; b2] [] in
  BookRepository.add_book book_repo "T" 1 (world_of db1 []) = (Return b1, w1)
  ∧ BookRepository.add_book book_repo "U" 2 w1 = (Return b2, w2)
  ∧ ∃ k1 k2, Book_id b1 = Some k1 ∧ Book_id b2 = Some k2
             ∧ k1 ≠ k2
             ∧ books (db w2) !! k1 = Some ("T", Some 1)
             ∧ books (db w2) !! k2 = Some ("U", Some 2).
Proof.
  intros b1 b2 w1 w2.
  assert (BookRepository.add_book book_repo "T" 1 (world_of db1 []) = (Return b1, w1))
    as Hadd1 by (vm_compute; reflexivity).
  assert (BookRepository.add_book book_repo "U" 2 w1 = (Return b2, w2))
    as Hadd2 by (vm_compute; reflexivity).
  split; [exact Hadd1|]. split; [exact Hadd2|].
  exact (add_book_twice (world_of db1 []) "T" "U" 1 2 b1 b2 w1 w2 Hadd1 Hadd2).
Defined.

(** On a store that raises no failure. *)
Lemma add_book_healthy title author_id d fs ss bo uo :
  int64 author_id → int64 (next_rowid (books d)) →
  healthy fs →
  let b := mkBook (Some (next_rowid (books d))) title (Some author_id) in
  BookRepository.add_book book_repo title author_id (mkWorld d fs ss bo uo)
  = (Return b,
     mkWorld (insert_book d title (Some author_id)) (drop 3 fs)
       (ss ++ [fresh_session]) (bo ++ [b]) uo).
Proof.
  intros Ha Hk Hfs. cbn zeta. rewrite add_book_cases by done. cbn zeta.
  destruct fs as [|f1 [|f2 [|f3 fs']]]; [done|..];
    repeat (apply healthy_cons_inv in Hfs as [-> Hfs]); done.
Qed.

Lemma get_books_by_author_healthy author_id d fs ss bo uo :
  int64 author_id →
  healthy fs →
  BookRepository.get_books_by_author book_repo author_id (mkWorld d fs ss bo uo)
  = (Return (Book_of_row <$> select_books_by_author d author_id),
     mkWorld d (drop 1 fs) (ss ++ [fresh_session]) bo uo).
Proof.
  intros Ha Hfs. rewrite get_books_by_author_cases by done.
  destruct fs as [|f1 fs']; [done|]. by apply healthy_cons_inv in Hfs as [-> Hfs].
Qed.

Lemma delete_book_healthy book_id d fs ss bo uo :
  int64 book_id →
  healthy fs →
  BookRepository.delete_book book_repo book_id (mkWorld d fs ss bo uo)
  = match books d !! book_id with
    | None => (Return false, mkWorld d (drop 1 fs) (ss ++ [fresh_session]) bo uo)
    | Some _ =>
        (Return true,
         mkWorld (remove_book d book_id) (drop 3 fs) (ss ++ [fresh_session]) bo uo)
    end.
Proof.
  intros Hb Hfs. rewrite delete_book_cases by done.
  destruct fs as [|f1 [|f2 [|f3 fs']]]; [done|..];
    repeat (apply healthy_cons_inv in Hfs as [-> Hfs]); done.
Qed.

(** X4: deleting the Book that add_book has just returned gives [True] and
    the database that was there before the add. *)
Theorem add_then_delete (w : World) (title : string) (author_id : Z)
    (b : Book) (w1 : World) :
  BookRepository.add_book book_repo title author_id w = (Return b, w1) →
  healthy (faults w1) →
  ∃ k w2, Book_id b = Some k
          ∧ BookRepository.delete_book book_repo k w1 = (Return true, w2)
          ∧ db w2 = db w.
Proof.
  intros Hadd Hfs. destruct (add_book_Return_int64 _ _ _ _ _ Hadd) as [_ Hk].
  apply add_book_Return in Hadd as [-> ->]. cbn in Hfs.
  eexists _, _. split; [reflexivity|].
  rewrite delete_book_healthy by done. cbn.
  rewrite lookup_insert_eq. split; [reflexivity|]. cbn.
  apply remove_insert_book.
Qed.

Lemma add_then_delete_witness :
  let b := mkBook (Some 3) "T" (Some 1) in
  let w1 := mkWorld (insert_book db1 "T" (Some 1)) [] [fresh_session] [b] [] in
  BookRepository.add_book book_repo "T" 1 (world_of db1 []) = (Return b, w1)
  ∧ healthy (faults w1)
  ∧ ∃ k w2, Book_id b = Some k
            ∧ BookRepository.delete_book book_repo k w1 = (Return true, w2)
            ∧ db w2 = db (world_of db1 []).
Proof.
  intros b w1.
  assert (BookRepository.add_book book_repo "T" 1 (world_of db1 []) = (Return b, w1))
    as Hadd by (vm_compute; reflexivity).
  assert (healthy (faults w1)) as Hfs by compute_done.
  split; [exact Hadd|]. split; [exact Hfs|].
  exact (add_then_delete (world_of db1 []) "T" 1 b w1 Hadd Hfs).
Defined.



(** X6: whatever the store does, delete_book closes the session it opened
    and is all or nothing: it returns [True] with exactly that row removed,
    or [False] for an id without row, or raises, and in the last two cases
    the database is as it was.  It returns only for an id that fits a
    signed 64-bit integer; what it raises is a SQLAlchemyError for such an
    id, and the OverflowError of the driver for any other. *)
Theorem delete_book_effects (w : World) (book_id : Z) :
  let r := BookRepository.delete_book book_repo book_id w in
  sessions r.2 = sessions w ++ [fresh_session]
  ∧ match r.1 with
    | Return true =>
        int64 book_id
        ∧ is_Some (books (db w) !! book_id) ∧ db r.2 = remove_book (db w) book_id
    | Return false =>
        int64 book_id ∧ books (db w) !! book_id = None ∧ db r.2 = db w
    | Raise e =>
        (if decide (int64 book_id) then is_SQLAlchemyError e = true
         else e = OverflowError "Python int too large to convert to SQLite INTEGER")
        ∧ db r.2 = db w
    end.
Proof.
  destruct w as [d fs ss bo uo]. cbn zeta.
  destruct (decide (int64 book_id)) as [Hb|Hb].
  - rewrite delete_book_cases by done. cbn [db sessions].
    destruct (books d !! book_id) as [row|] eqn:Hrow;
      destruct fs as [|[m1|] [|[m2|] [|[m3|] fs']]]; cbn; eauto.
  - rewrite delete_book_overflow by done. cbn. eauto.
Qed.

(** X7: once delete_book has returned [True] for an id, no
    get_books_by_author returns a Book with that id, whatever the author
    and whatever the store does; and on a store that raises no failure it
    does return, for every author_id that fits a signed 64-bit integer. *)
Theorem delete_then_list (w : World) (book_id author_id : Z) (w1 : World) :
  BookRepository.delete_book book_repo book_id w = (Return true, w1) →
  (∀ bs w2,
     BookRepository.get_books_by_author book_repo author_id w1 = (Return bs, w2) →
     ∀ b, b ∈ bs → Book_id b ≠ Some book_id)
  ∧ (healthy (faults w1) → int64 author_id →
     ∃ bs w2,
       BookRepository.get_books_by_author book_repo author_id w1 = (Return bs, w2)).
Proof.
  intros [_ ->]%delete_book_Return_true. split.
  - destruct (decide (int64 author_id)) as [Ha|Ha];
      [|by rewrite get_books_by_author_overflow by done].
    rewrite get_books_by_author_cases by done.
    intros bs w2 Hget b Hb [= Hk].
    assert (bs = Book_of_row <$> select_books_by_author
                                   (remove_book (db w) book_id) author_id) as ->.
    { destruct (drop 3 (faults w)) as [|[m|] fs']; by simplify_eq. }
    apply list_elem_of_fmap in Hb as [row [-> Hrow]].
    apply list_elem_of_filter in Hrow as [_ Hrow].
    destruct row as [k v]. apply elem_of_map_to_list in Hrow. cbn in Hk, Hrow.
    injection Hk as ->. by rewrite lookup_delete_eq in Hrow.
  - cbn [faults]. intros Hfs Ha.
    rewrite get_books_by_author_healthy by done. by eexists _, _.
Qed.

Lemma delete_then_list_witness :
  let w1 := mkWorld (remove_book db1 2) [] [fresh_session] [] [] in
  BookRepository.delete_book book_repo 2 (world_of db1 []) = (Return true, w1)
  ∧ (∀ bs w2,
       BookRepository.get_books_by_author book_repo 1 w1 = (Return bs, w2) →
       ∀ b, b ∈ bs → Book_id b ≠ Some 2)
  ∧ (healthy (faults w1) → int64 1 →
     ∃ bs w2,
       BookRepository.get_books_by_author book_repo 1 w1 = (Return bs, w2)).
Proof.
  intros w1.
  assert (BookRepository.delete_book book_repo 2 (world_of db1 []) = (Return true, w1))
    as Hdel by (vm_compute; reflexivity).
  split; [exact Hdel|].
  exact (delete_then_list (world_of db1 []) 2 1 w1 Hdel).
Defined.

(** X8: on a store that raises no failure, get_books_by_author of an
    author_id that fits a signed 64-bit integer returns, each once, exactly
    the Books whose row has that author_id (none for an id that no book
    refers to, which is no error), and leaves the database as it is. *)
Theorem get_books_by_author_spec (w : World) (author_id : Z) :
  healthy (faults w) →
  int64 author_id →
  ∃ bs w1,
    BookRepository.get_books_by_author book_repo author_id w = (Return bs, w1)
    ∧ db w1 = db w
    ∧ NoDup bs
    ∧ (∀ b, b ∈ bs ↔ ∃ k title, books (db w) !! k = Some (title, Some author_id)
                                 ∧ b = mkBook (Some k) title (Some author_id))
    ∧ (bs = [] ↔ ∀ k title, books (db w) !! k ≠ Some (title, Some author_id)).
Proof.
  destruct w as [d fs ss bo uo]; cbn [db faults]. intros Hfs Ha.
  rewrite get_books_by_author_healthy by done. eexists _, _.
  split; [reflexivity|]. split; [done|].
  assert (∀ b, b ∈ Book_of_row <$> select_books_by_author d author_id
               ↔ ∃ k title, books d !! k = Some (title, Some author_id)
                            ∧ b = mkBook (Some k) title (Some author_id)) as Hin.
  { intros b. rewrite list_elem_of_fmap. split.
    - intros [[k [t a]] [-> [Heq Hrow]%list_elem_of_filter]]. cbn in Heq. subst a.
      apply elem_of_map_to_list in Hrow. by exists k, t.
    - intros (k & t & Hk & ->). exists (k, (t, Some author_id)). split; [done|].
      apply list_elem_of_filter. split; [done|]. by apply elem_of_map_to_list. }
  split; [|split; [done|]].
  - apply NoDup_fmap_2.
    + intros [k1 [t1 a1]] [k2 [t2 a2]] [= -> -> ->]. done.
    + apply NoDup_filter, NoDup_map_to_list.
  - split.
    + intros Hnil k title Hk.
      assert (mkBook (Some k) title (Some author_id)
              ∈ Book_of_row <$> select_books_by_author d author_id) as Hb
        by (apply Hin; eauto).
      rewrite Hnil in Hb. by apply elem_of_nil in Hb.
    + intros Hnone.
      destruct (Book_of_row <$> select_books_by_author d author_id) as [|b bs] eqn:Hbs;
        [done|].
      destruct (proj1 (Hin b)) as (k & t & Hk & _); [rewrite ?Hbs; left|].
      by destruct (Hnone k t).
Qed.

Lemma get_books_by_author_spec_witness :
  healthy (faults (world_of db1 []))
  ∧ int64 1
  ∧ ∃ bs w1,
      BookRepository.get_books_by_author book_repo 1 (world_of db1 []) = (Return bs, w1)
      ∧ db w1 = db (world_of db1 [])
      ∧ NoDup bs
      ∧ (∀ b, b ∈ bs ↔ ∃ k title, books (db (world_of db1 [])) !! k = Some (title, Some 1)
                                   ∧ b = mkBook (Some k) title (Some 1))
      ∧ (bs = [] ↔ ∀ k title, books (db (world_of db1 [])) !! k ≠ Some (title, Some 1)).
Proof.
  assert (healthy (faults (world_of db1 []))) as Hfs by compute_done.
  assert (int64 1) as Ha by (unfold int64, min_int64, max_int64; lia).
  split; [exact Hfs|]. split; [exact Ha|].
  exact (get_books_by_author_spec (world_of db1 []) 1 Hfs Ha).
Defined.

(** * The endpoints of the repository *)




(** X11: on a store that raises no failure and whose book ids are, as in
    every SQLite table, signed 64-bit integers, the delete endpoint answers
    a book that is there with the success dict, whose message carries the
    id in decimal, and removes its row; for an id without row the 404 it
    raises is caught by its own handler and comes out with status 400, the
    database being as it was. *)
Theorem delete_book_endpoint_spec (w : World) (book_id : Z) :
  healthy (faults w) →
  book_ids_int64 (db w) →
  match books (db w) !! book_id with
  | Some _ =>
      ∃ w1,
        delete_book book_id w
        = (Return (mkStatusDict "success"
                     ("Книга с id " +:+ pretty book_id +:+ " удалена")), w1)
        ∧ db w1 = remove_book (db w) book_id
  | None =>
      ∃ detail w1,
        delete_book book_id w = (Raise (HTTPException 400 detail), w1)
        ∧ db w1 = db w
  end.
Proof.
  destruct w as [d fs ss bo uo]; cbn [db faults]. intros Hfs Hids.
  unfold delete_book, try_except, mbind, M_bind, mret, M_ret, raise.
  destruct (decide (int64 book_id)) as [Hb|Hb].
  - rewrite delete_book_healthy by done.
    destruct (books d !! book_id) as [row|]; cbn; eauto.
  - rewrite delete_book_overflow by done.
    destruct (books d !! book_id) as [row|] eqn:Hrow; cbn; [|eauto].
    by destruct Hb, (Hids book_id row).
Qed.

Lemma delete_book_endpoint_spec_witness :
  healthy (faults (world_of db1 []))
  ∧ book_ids_int64 (db (world_of db1 []))
  ∧ (∃ w1,
       delete_book 2 (world_of db1 [])
       = (Return (mkStatusDict "success" "Книга с id 2 удалена"), w1)
       ∧ db w1 = remove_book db1 2)
  ∧ (∃ detail w1,
       delete_book 3 (world_of db1 []) = (Raise (HTTPException 400 detail), w1)
       ∧ db w1 = db1).
Proof.
  assert (healthy (faults (world_of db1 []))) as Hfs by compute_done.
  assert (book_ids_int64 (db (world_of db1 []))) as Hids by compute_done.
  split; [exact Hfs|]. split; [exact Hids|]. split.
  - exact (delete_book_endpoint_spec (world_of db1 []) 2 Hfs Hids).
  - exact (delete_book_endpoint_spec (world_of db1 []) 3 Hfs Hids).
Defined.

(** X12: whatever the store does, the delete endpoint either returns a
    dict of status "success" or raises with status 400, never 404; when it
    raises, no book has been removed. *)
Theorem delete_book_endpoint_outcomes (w : World) (book_id : Z) :
  let r := delete_book book_id w in
  match r.1 with
  | Return s => status s = "success" ∧ db r.2 = remove_book (db w) book_id
  | Raise e => (∃ detail, e = HTTPException 400 detail) ∧ db r.2 = db w
  end.
Proof.
  destruct w as [d fs ss bo uo]. cbn zeta.
  unfold delete_book, try_except, mbind, M_bind, mret, M_ret, raise.
  destruct (decide (int64 book_id)) as [Hb|Hb].
  - rewrite delete_book_cases by done.
    destruct (books d !! book_id) as [row|];
      destruct fs as [|[m1|] [|[m2|] [|[m3|] fs']]]; cbn; eauto.
  - rewrite delete_book_overflow by done. cbn. eauto.
Qed.

(** * Further properties of the lazy and the eager read *)

Lemma Session_execute_fresh_healthy d fs ss bo uo :
  healthy fs →
  Session_execute (length ss) (mkWorld d fs (ss ++ [fresh_session]) bo uo)
  = (Return d, mkWorld d (drop 1 fs) (ss ++ [mkSession [] [] (Some d)]) bo uo).
Proof.
  intros Hfs. destruct fs as [|f fs]; [by run|].
  apply healthy_cons_inv in Hfs as [-> _]. by run.
Qed.

Lemma Session_execute_begun_healthy d view fs ss bo uo :
  healthy fs →
  Session_execute (length ss) (mkWorld d fs (ss ++ [mkSession [] [] (Some view)]) bo uo)
  = (Return view, mkWorld d (drop 1 fs) (ss ++ [mkSession [] [] (Some view)]) bo uo).
Proof.
  intros Hfs. destruct fs as [|f fs]; [by run|].
  apply healthy_cons_inv in Hfs as [-> _]. by run.
Qed.

Lemma Session_execute_fresh_ok d fs ss bo uo :
  Session_execute (length ss) (mkWorld d (None :: fs) (ss ++ [fresh_session]) bo uo)
  = (Return d, mkWorld d fs (ss ++ [mkSession [] [] (Some d)]) bo uo).
Proof. run. reflexivity. Qed.

Lemma Session_execute_begun_fail d view msg fs ss bo uo :
  Session_execute (length ss)
    (mkWorld d (Some msg :: fs) (ss ++ [mkSession [] [] (Some view)]) bo uo)
  = (Raise (SQLAlchemyError msg),
     mkWorld d fs (ss ++ [mkSession [] [] (Some view)]) bo uo).
Proof. by run. Qed.

Arguments Author_books_get : simpl never.

Lemma Author_books_get_unloaded d view k n fs ss bo uo :
  healthy fs →
  Author_books_get (length ss) (mkAuthor k n None)
    (mkWorld d fs (ss ++ [mkSession [] [] (Some view)]) bo uo)
  = (Return (Book_of_row <$> select_books_by_author view k),
     mkWorld d (drop 1 fs) (ss ++ [mkSession [] [] (Some view)]) bo uo).
Proof.
  intros Hfs. unfold Author_books_get. cbn [Author_books]. unfold mbind, M_bind.
  by rewrite Session_execute_begun_healthy.
Qed.

(** The comprehension over authors whose books are not loaded: one call to
    the store for each. *)
Lemma authors_result_unloaded d view ss bo uo (rows : list (Z * string)) fs :
  healthy fs →
  authors_result (length ss) ((λ row, mkAuthor row.1 row.2 None) <$> rows)
    (mkWorld d fs (ss ++ [mkSession [] [] (Some view)]) bo uo)
  = (Return ((λ row, mkAuthorDict row.1 row.2
                       (Book_title <$> (Book_of_row <$> select_books_by_author view row.1)))
             <$> rows),
     mkWorld d (drop (length rows) fs) (ss ++ [mkSession [] [] (Some view)]) bo uo).
Proof.
  unfold authors_result, mbind, M_bind, mret, M_ret. revert fs.
  induction rows as [|row rows IH]; intros fs Hfs; [done|].
  specialize (IH (drop 1 fs) (healthy_drop 1 fs Hfs)).
  cbn. unfold mbind. cbn beta. rewrite Author_books_get_unloaded by done.
  rewrite IH. by rewrite drop_drop.
Qed.

(** The comprehension over authors whose books are loaded: no call to the
    store. *)
Lemma authors_result_loaded (h : nat) (l : list Author) (w : World) :
  Forall (λ a, is_Some (Author_books a)) l →
  authors_result h l w
  = (Return ((λ a, mkAuthorDict (Author_id a) (Author_name a)
                     (Book_title <$> default [] (Author_books a))) <$> l), w).
Proof.
  intros Hl. unfold authors_result. apply mapM_Return.
  intros a Ha. rewrite Forall_forall in Hl. destruct (Hl a Ha) as [bs Hbs].
  unfold Author_books_get. by rewrite Hbs.
Qed.

Lemma get_authors_lazy_healthy d fs ss bo uo :
  healthy fs →
  get_authors_lazy (mkWorld d fs ss bo uo)
  = (Return (author_dicts d),
     mkWorld d (drop (S (size (authors d))) fs) (ss ++ [fresh_session]) bo uo).
Proof.
  intros Hfs. unfold get_authors_lazy, try_finally, mbind, M_bind.
  rewrite SessionLocal_eq. unfold Session_query_Author_all, mbind, M_bind.
  rewrite Session_execute_fresh_healthy by done. unfold mret, M_ret.
  rewrite authors_result_unloaded by by apply healthy_drop.
  unfold Session_close. rewrite put_session_eq.
  by rewrite drop_drop, length_map_to_list.
Qed.

Lemma get_authors_eager_healthy d fs ss bo uo :
  healthy fs →
  get_authors_eager (mkWorld d fs ss bo uo)
  = (Return (author_dicts d),
     mkWorld d (drop 1 fs) (ss ++ [fresh_session]) bo uo).
Proof.
  intros Hfs. unfold get_authors_eager, try_finally, mbind, M_bind.
  rewrite SessionLocal_eq. unfold Session_query_Author_joinedload_all, mbind, M_bind.
  rewrite Session_execute_fresh_healthy by done. unfold mret, M_ret.
  rewrite joined_load_eq. rewrite authors_result_loaded.
  - unfold Session_close. rewrite put_session_eq.
    unfold author_dicts. by rewrite <- list_fmap_compose.
  - apply Forall_fmap, Forall_true. intros row; cbn. by eexists.
Qed.

(** X13: the N+1 of the lazy read.  On a store that raises no failure,
    get_authors_lazy calls the store once for the authors and once more for
    each author, get_authors_eager once in all: of the failures the store
    has in wait, the first [1 + number of authors], respectively the first
    one, are used up. *)
Theorem lazy_calls_store_per_author (w : World) :
  healthy (faults w) →
  faults (get_authors_lazy w).2 = drop (S (size (authors (db w)))) (faults w)
  ∧ faults (get_authors_eager w).2 = drop 1 (faults w)
  ∧ (∃ r, (get_authors_lazy w).1 = Return r)
  ∧ (∃ r, (get_authors_eager w).1 = Return r).
Proof.
  destruct w as [d fs ss bo uo]; cbn [db faults]. intros Hfs.
  rewrite get_authors_lazy_healthy, get_authors_eager_healthy by done. cbn.
  repeat split; eauto.
Qed.

Lemma lazy_calls_store_per_author_witness :
  let w := world_of db1 [None; None; None; None; None] in
  healthy (faults w)
  ∧ faults (get_authors_lazy w).2 = drop 3 (faults w)
  ∧ faults (get_authors_eager w).2 = drop 1 (faults w)
  ∧ (∃ r, (get_authors_lazy w).1 = Return r)
  ∧ (∃ r, (get_authors_eager w).1 = Return r).
Proof.
  intros w. assert (healthy (faults w)) as Hfs by compute_done.
  split; [exact Hfs|]. exact (lazy_calls_store_per_author w Hfs).
Defined.

(** X14: a store that answers the first query and fails on the second one
    lets the eager read return its data, while the lazy read of a database
    with at least one author raises the failure; neither changes the
    database. *)
Theorem eager_survives_second_failure (w : World) (msg : string)
    (fs : list (option string)) :
  faults w = None :: Some msg :: fs →
  authors (db w) ≠ ∅ →
  (∃ r, (get_authors_eager w).1 = Return r)
  ∧ (get_authors_lazy w).1 = Raise (SQLAlchemyError msg)
  ∧ db (get_authors_eager w).2 = db w
  ∧ db (get_authors_lazy w).2 = db w.
Proof.
  destruct w as [d fs0 ss bo uo]; cbn [db faults]. intros -> Hne.
  assert (get_authors_eager (mkWorld d (None :: Some msg :: fs) ss bo uo)
          = (Return (author_dicts d),
             mkWorld d (Some msg :: fs) (ss ++ [fresh_session]) bo uo)) as ->.
  { unfold get_authors_eager, try_finally, mbind, M_bind.
    rewrite SessionLocal_eq. unfold Session_query_Author_joinedload_all, mbind, M_bind.
    rewrite Session_execute_fresh_ok. unfold mret, M_ret. rewrite joined_load_eq, authors_result_loaded.
    - unfold Session_close. rewrite put_session_eq.
      unfold author_dicts. by rewrite <- list_fmap_compose.
    - apply Forall_fmap, Forall_true. intros row; cbn. by eexists. }
  assert (get_authors_lazy (mkWorld d (None :: Some msg :: fs) ss bo uo)
          = (Raise (SQLAlchemyError msg),
             mkWorld d fs (ss ++ [fresh_session]) bo uo)) as ->.
  { unfold get_authors_lazy, try_finally, mbind, M_bind.
    rewrite SessionLocal_eq. unfold Session_query_Author_all, mbind, M_bind.
    rewrite Session_execute_fresh_ok. unfold mret, M_ret.
    destruct (map_to_list (authors d)) as [|row rows] eqn:Hrows.
    { by apply map_to_list_empty_iff in Hrows. }
    unfold authors_result. cbn. unfold mbind, M_bind, Author_books_get.
    cbn [Author_books]. unfold mbind, M_bind.
    rewrite Session_execute_begun_fail.
    unfold Session_close. by rewrite put_session_eq. }
  cbn. eauto.
Qed.

Lemma eager_survives_second_failure_witness :
  let w := world_of db1 [None; Some "locked"] in
  faults w = None :: Some "locked" :: []
  ∧ authors (db w) ≠ ∅
  ∧ (∃ r, (get_authors_eager w).1 = Return r)
  ∧ (get_authors_lazy w).1 = Raise (SQLAlchemyError "locked")
  ∧ db (get_authors_eager w).2 = db w
  ∧ db (get_authors_lazy w).2 = db w.
Proof.
  intros w.
  assert (authors (db w) ≠ ∅) as Hne.
  { intros Heq. apply (f_equal (λ m, m !! 1)) in Heq. by vm_compute in Heq. }
  split; [reflexivity|]. split; [exact Hne|].
  exact (eager_survives_second_failure w "locked" [] eq_refl Hne).
Defined.

(** ** What the two reads leave alone *)

(** A statement on a session without pending writes, by what the store
    does: the session has its transaction afterwards, and nothing else of
    the state has changed but the failures in wait. *)
Lemma Session_execute_fresh_cases d fs ss bo uo :
  Session_execute (length ss) (mkWorld d fs (ss ++ [fresh_session]) bo uo)
  = match fs with
    | Some msg :: fs' =>
        (Raise (SQLAlchemyError msg),
         mkWorld d fs' (ss ++ [mkSession [] [] (Some d)]) bo uo)
    | _ =>
        (Return d, mkWorld d (drop 1 fs) (ss ++ [mkSession [] [] (Some d)]) bo uo)
    end.
Proof. destruct fs as [|[m|] fs']; by run. Qed.

Lemma Session_execute_begun_cases d view fs ss bo uo :
  Session_execute (length ss)
    (mkWorld d fs (ss ++ [mkSession [] [] (Some view)]) bo uo)
  = match fs with
    | Some msg :: fs' =>
        (Raise (SQLAlchemyError msg),
         mkWorld d fs' (ss ++ [mkSession [] [] (Some view)]) bo uo)
    | _ =>
        (Return view,
         mkWorld d (drop 1 fs) (ss ++ [mkSession [] [] (Some view)]) bo uo)
    end.
Proof. destruct fs as [|[m|] fs']; by run. Qed.

Lemma Author_books_get_unloaded_cases d view k n fs ss bo uo :
  Author_books_get (length ss) (mkAuthor k n None)
    (mkWorld d fs (ss ++ [mkSession [] [] (Some view)]) bo uo)
  = match fs with
    | Some msg :: fs' =>
        (Raise (SQLAlchemyError msg),
         mkWorld d fs' (ss ++ [mkSession [] [] (Some view)]) bo uo)
    | _ =>
        (Return (Book_of_row <$> select_books_by_author view k),
         mkWorld d (drop 1 fs) (ss ++ [mkSession [] [] (Some view)]) bo uo)
    end.
Proof.
  unfold Author_books_get. cbn [Author_books]. unfold mbind, M_bind.
  rewrite Session_execute_begun_cases. by destruct fs as [|[m|] fs'].
Qed.

(** The comprehension over authors whose books are not loaded, whatever
    the store does. *)
Lemma authors_result_unloaded_any d view ss bo uo (rows : list (Z * string)) fs :
  ∃ r fs',
    authors_result (length ss) ((λ row, mkAuthor row.1 row.2 None) <$> rows)
      (mkWorld d fs (ss ++ [mkSession [] [] (Some view)]) bo uo)
    = (r, mkWorld d fs' (ss ++ [mkSession [] [] (Some view)]) bo uo)
    ∧ ∀ e, r = Raise e → is_SQLAlchemyError e = true.
Proof.
  unfold authors_result, mbind, M_bind, mret, M_ret. revert fs.
  induction rows as [|row rows IH]; intros fs; [by eexists _, _|].
  cbn. unfold mbind. cbn beta. rewrite Author_books_get_unloaded_cases.
  destruct fs as [|[m|] fs']; cbn [drop].
  - destruct (IH []) as (r & fs1 & Heq & Hr). rewrite Heq.
    destruct r as [l|e]; eexists _, _; (split; [reflexivity|]); [done|].
    intros e' [= <-]. by apply Hr.
  - eexists _, _. split; [reflexivity|]. by intros e' [= <-].
  - destruct (IH (drop 0 fs')) as (r & fs1 & Heq & Hr). rewrite Heq.
    destruct r as [l|e]; eexists _, _; (split; [reflexivity|]); [done|].
    intros e' [= <-]. by apply Hr.
Qed.

Ltac close_session :=
  lazy beta iota; unfold mret, M_ret, Session_close;
  rewrite put_session_eq; lazy beta iota.

Lemma get_authors_lazy_any d fs ss bo uo :
  ∃ r fs',
    get_authors_lazy (mkWorld d fs ss bo uo)
    = (r, mkWorld d fs' (ss ++ [fresh_session]) bo uo)
    ∧ ∀ e, r = Raise e → is_SQLAlchemyError e = true.
Proof.
  unfold get_authors_lazy, try_finally, mbind, M_bind.
  rewrite SessionLocal_eq. unfold Session_query_Author_all, mbind, M_bind.
  rewrite Session_execute_fresh_cases.
  destruct fs as [|[m|] fs']; lazy beta iota; unfold mret, M_ret; lazy beta iota.
  2: { close_session. eexists _, _. split; [reflexivity|]. by intros e [= <-]. }
  all: match goal with
       | |- context [authors_result _ _ (mkWorld _ ?fs0 _ _ _)] =>
           destruct (authors_result_unloaded_any d d ss bo uo
                       (map_to_list (authors d)) fs0) as (r & fs1 & Heq & Hr)
       end;
    rewrite Heq; destruct r as [l|e]; close_session;
    eexists _, _; (split; [reflexivity|]); [done|];
    intros e' [= <-]; by apply Hr.
Qed.

Lemma get_authors_eager_any d fs ss bo uo :
  ∃ r fs',
    get_authors_eager (mkWorld d fs ss bo uo)
    = (r, mkWorld d fs' (ss ++ [fresh_session]) bo uo)
    ∧ ∀ e, r = Raise e → is_SQLAlchemyError e = true.
Proof.
  unfold get_authors_eager, try_finally, mbind, M_bind.
  rewrite SessionLocal_eq.
  unfold Session_query_Author_joinedload_all, mbind, M_bind.
  rewrite Session_execute_fresh_cases.
  destruct fs as [|[m|] fs']; lazy beta iota; unfold mret, M_ret; lazy beta iota.
  2: { close_session. eexists _, _. split; [reflexivity|]. by intros e [= <-]. }
  all: rewrite joined_load_eq, authors_result_loaded
         by (apply Forall_fmap, Forall_true; intros row; cbn; by eexists);
    close_session; eexists _, _; by split.
Qed.

(** X15: whatever the store does, and however many authors there are, both
    reads leave the database as it is, close the session they opened and
    raise nothing but a SQLAlchemyError. *)
Theorem author_reads_effects (w : World) :
  (db (get_authors_lazy w).2 = db w
   ∧ sessions (get_authors_lazy w).2 = sessions w ++ [fresh_session]
   ∧ ∀ e, (get_authors_lazy w).1 = Raise e → is_SQLAlchemyError e = true)
  ∧ (db (get_authors_eager w).2 = db w
     ∧ sessions (get_authors_eager w).2 = sessions w ++ [fresh_session]
     ∧ ∀ e, (get_authors_eager w).1 = Raise e → is_SQLAlchemyError e = true).
Proof.
  destruct w as [d fs ss bo uo]; cbn [db sessions].
  destruct (get_authors_lazy_any d fs ss bo uo) as (r1 & fs1 & -> & Hr1).
  destruct (get_authors_eager_any d fs ss bo uo) as (r2 & fs2 & -> & Hr2).
  cbn. split_and!; done.
Qed.

Lemma author_dicts_lists_all d : lists_all_authors d (author_dicts d).
Proof.
  unfold lists_all_authors, author_dicts. split; [|split; [|split]].
  - rewrite <- list_fmap_compose. apply NoDup_fst_map_to_list.
  - by rewrite length_fmap, length_map_to_list.
  - intros x [[a n] [-> Hrow]]%list_elem_of_fmap. cbn.
    by apply elem_of_map_to_list.
  - intros a n Han. eexists. split.
    + apply list_elem_of_fmap. exists (a, n). split; [reflexivity|].
      by apply elem_of_map_to_list.
    + cbn. split; [done|]. split; [done|]. split.
      { unfold titles_of_author. by rewrite <- list_fmap_compose. }
      intros title.
      rewrite <- list_fmap_compose, list_elem_of_fmap. split.
      * intros [[k [t a']] [-> [Ha Hrow]%list_elem_of_filter]]. cbn in *. subst a'.
        exists k. by apply elem_of_map_to_list.
      * intros [k Hk]. exists (k, (title, Some a)). split; [done|].
        apply list_elem_of_filter. split; [done|]. by apply elem_of_map_to_list.
Qed.

(** X16: on a store that raises no failure, each of the two reads returns
    one dict for every Author and no other, those without books included,
    each with the titles of the books that refer to it: up to their order,
    one title for each such book, so that a title is there as often as
    there are books of the author with it, and no other title is. *)
Theorem author_reads_list_all_authors (w : World) :
  healthy (faults w) →
  ∃ r1 w1 r2 w2,
    get_authors_lazy w = (Return r1, w1)
    ∧ get_authors_eager w = (Return r2, w2)
    ∧ lists_all_authors (db w) r1
    ∧ lists_all_authors (db w) r2.
Proof.
  destruct w as [d fs ss bo uo]; cbn [db faults]. intros Hfs.
  rewrite get_authors_lazy_healthy, get_authors_eager_healthy by done.
  eexists _, _, _, _. split; [reflexivity|]. split; [reflexivity|].
  split; apply author_dicts_lists_all.
Qed.

Lemma author_reads_list_all_authors_witness :
  healthy (faults (world_of db1 []))
  ∧ ∃ r1 w1 r2 w2,
      get_authors_lazy (world_of db1 []) = (Return r1, w1)
      ∧ get_authors_eager (world_of db1 []) = (Return r2, w2)
      ∧ lists_all_authors (db (world_of db1 [])) r1
      ∧ lists_all_authors (db (world_of db1 [])) r2.
Proof.
  assert (healthy (faults (world_of db1 []))) as Hfs by compute_done.
  split; [exact Hfs|]. exact (author_reads_list_all_authors (world_of db1 []) Hfs).
Defined.

(** * Further properties of the aggregate query *)

Lemma get_authors_book_counts_cases d fs ss bo uo :
  get_authors_book_counts (mkWorld d fs ss bo uo)
  = match fs with
    | Some msg :: fs' => (Raise (SQLAlchemyError msg), mkWorld d fs' ss bo uo)
    | None :: Some msg :: fs' => (Raise (SQLAlchemyError msg), mkWorld d fs' ss bo uo)
    | None :: None :: Some msg :: fs' =>
        (Raise (SQLAlchemyError msg), mkWorld d fs' ss bo uo)
    | _ =>
        (Return ((λ row, mkBookCount row.1 row.2) <$> group_by_name_count (inner_join d)),
         mkWorld d (drop 3 fs) ss bo uo)
    end.
Proof.
  unfold get_authors_book_counts, Table_autoload, connection_execute_stmt.
  destruct fs as [|[m1|] [|[m2|] [|[m3|] fs']]]; run; reflexivity.
Qed.

Lemma get_authors_book_counts_healthy d fs ss bo uo :
  healthy fs →
  get_authors_book_counts (mkWorld d fs ss bo uo)
  = (Return ((λ row, mkBookCount row.1 row.2) <$> group_by_name_count (inner_join d)),
     mkWorld d (drop 3 fs) ss bo uo).
Proof.
  intros Hfs. rewrite get_authors_book_counts_cases.
  destruct fs as [|f1 [|f2 [|f3 fs']]]; [done|..];
    repeat (apply healthy_cons_inv in Hfs as [-> Hfs]); done.
Qed.

Lemma get_authors_book_counts_Return w r w' :
  get_authors_book_counts w = (Return r, w') →
  r = (λ row, mkBookCount row.1 row.2) <$> group_by_name_count (inner_join (db w))
  ∧ w' = mkWorld (db w) (drop 3 (faults w)) (sessions w)
           (Book_objects w) (User_objects w).
Proof.
  destruct w as [d fs ss bo uo]. rewrite get_authors_book_counts_cases. cbn.
  destruct fs as [|[m1|] [|[m2|] [|[m3|] fs']]]; intros [= <- <-]; done.
Qed.

(** The joined rows, row by row. *)
Lemma elem_of_inner_join d n k :
  (n, k) ∈ inner_join d
  ↔ ∃ a title, authors d !! a = Some n ∧ books d !! k = Some (title, Some a).
Proof.
  unfold inner_join. rewrite list_elem_of_bind. split.
  - intros [[a n'] [Hrow Ha]]. apply elem_of_map_to_list in Ha.
    apply list_elem_of_fmap in Hrow as [[k' [t a']] [[= -> ->] Hrow]].
    apply list_elem_of_filter in Hrow as [Heq Hrow]. cbn in *. subst a'.
    apply elem_of_map_to_list in Hrow. eauto.
  - intros (a & title & Ha & Hk). exists (a, n). split.
    + apply list_elem_of_fmap. exists (k, (title, Some a)). split; [done|].
      apply list_elem_of_filter. split; [done|]. by apply elem_of_map_to_list.
    + by apply elem_of_map_to_list.
Qed.

Lemma elem_of_group_by_name_count rows n c :
  (n, c) ∈ group_by_name_count rows
  ↔ n ∈ rows.*1 ∧ c = Z.of_nat (length (filter (λ row, row.1 = n) rows)).
Proof.
  unfold group_by_name_count. rewrite list_elem_of_fmap. split.
  - intros [n' [[= -> ->] Hn]]. rewrite elem_of_remove_dups in Hn. by split.
  - intros [Hn ->]. exists n. split; [done|]. by apply elem_of_remove_dups.
Qed.

(** X17: every row that get_authors_book_counts returns has a count of at
    least 1, two rows never carry the same name, and the call opens no
    session and leaves the database as it is. *)
Theorem book_counts_rows (w : World) (r : list BookCount) (w' : World) :
  get_authors_book_counts w = (Return r, w') →
  NoDup (author <$> r)
  ∧ (∀ row, row ∈ r → (1 ≤ book_count row)%Z)
  ∧ db w' = db w
  ∧ sessions w' = sessions w.
Proof.
  intros [-> ->]%get_authors_book_counts_Return. cbn [db sessions].
  split; [|split; [|done]].
  - rewrite <- list_fmap_compose.
    assert (author ∘ (λ row : string * Z, mkBookCount row.1 row.2) = fst) as ->
      by done.
    apply group_by_name_count_NoDup.
  - intros row [[n c] [-> Hrow]]%list_elem_of_fmap. cbn.
    apply elem_of_group_by_name_count in Hrow as [Hn ->].
    apply list_elem_of_fmap in Hn as [row [-> Hrow]].
    assert (row ∈ filter (λ row0 : string * Z, row0.1 = row.1) (inner_join (db w)))
      as Hin by by apply list_elem_of_filter.
    destruct (filter _ _); [by apply elem_of_nil in Hin|]. cbn. lia.
Qed.

Lemma book_counts_rows_witness :
  get_authors_book_counts (world_of db2 [])
  = (Return [mkBookCount "A" 2], world_of db2 [])
  ∧ NoDup (author <$> [mkBookCount "A" 2])
  ∧ (∀ row, row ∈ [mkBookCount "A" 2] → (1 ≤ book_count row)%Z)
  ∧ db (world_of db2 []) = db (world_of db2 [])
  ∧ sessions (world_of db2 []) = sessions (world_of db2 []).
Proof.
  assert (get_authors_book_counts (world_of db2 [])
          = (Return [mkBookCount "A" 2], world_of db2 [])) as Hget
    by (vm_compute; reflexivity).
  split; [exact Hget|].
  exact (book_counts_rows (world_of db2 []) [mkBookCount "A" 2] (world_of db2 []) Hget).
Defined.

(** X18: on a store that raises no failure, a name has a row in the result
    of get_authors_book_counts exactly when some Author of that name has a
    book; the name of an Author without books is there only if another
    Author bears it and has one. *)
Theorem book_counts_names (w : World) :
  healthy (faults w) →
  ∃ r w',
    get_authors_book_counts w = (Return r, w')
    ∧ ∀ n, n ∈ author <$> r
           ↔ ∃ a k title, authors (db w) !! a = Some n
                          ∧ books (db w) !! k = Some (title, Some a).
Proof.
  destruct w as [d fs ss bo uo]; cbn [db faults]. intros Hfs.
  rewrite get_authors_book_counts_healthy by done. eexists _, _.
  split; [reflexivity|]. intros n.
  rewrite <- list_fmap_compose.
  assert (author ∘ (λ row : string * Z, mkBookCount row.1 row.2) = fst) as -> by done.
  split.
  - intros [[n' c] [-> Hrow]]%list_elem_of_fmap. cbn.
    apply elem_of_group_by_name_count in Hrow as [Hn _].
    apply list_elem_of_fmap in Hn as [[n'' k] [-> Hrow]].
    apply elem_of_inner_join in Hrow as (a & title & Ha & Hk). eauto.
  - intros (a & k & title & Ha & Hk).
    apply list_elem_of_fmap. eexists (n, _). split; [reflexivity|].
    apply elem_of_group_by_name_count. split; [|reflexivity].
    apply list_elem_of_fmap. exists (n, k). split; [done|].
    apply elem_of_inner_join. eauto.
Qed.

Lemma book_counts_names_witness :
  healthy (faults (world_of db1 []))
  ∧ ∃ r w',
      get_authors_book_counts (world_of db1 []) = (Return r, w')
      ∧ ∀ n, n ∈ author <$> r
             ↔ ∃ a k title, authors (db (world_of db1 [])) !! a = Some n
                            ∧ books (db (world_of db1 [])) !! k = Some (title, Some a).
Proof.
  assert (healthy (faults (world_of db1 []))) as Hfs by compute_done.
  split; [exact Hfs|]. exact (book_counts_names (world_of db1 []) Hfs).
Defined.

(** Counting by groups. *)
Lemma sum_list_with_add {A} (f g : A → nat) (l : list A) :
  sum_list_with (λ x, f x + g x)%nat l = (sum_list_with f l + sum_list_with g l)%nat.
Proof. induction l as [|x l IH]; cbn; lia. Qed.

Lemma sum_list_with_pointwise {A} (f g : A → nat) (l : list A) :
  (∀ x, f x = g x) → sum_list_with f l = sum_list_with g l.
Proof. intros Hfg. induction l as [|x l IH]; cbn; [done|]. by rewrite Hfg, IH. Qed.

Lemma sum_list_with_zero {A} (f : A → nat) (l : list A) :
  (∀ x, f x = 0%nat) → sum_list_with f l = 0%nat.
Proof. intros Hf. induction l as [|x l IH]; cbn; [done|]. by rewrite Hf, IH. Qed.

Lemma sum_list_with_fmap_fst {A B} (f : A → nat) (l : list (A * B)) :
  sum_list_with f l.*1 = sum_list_with (λ x, f x.1) l.
Proof. induction l as [|x l IH]; cbn; [done|]. by rewrite IH. Qed.

Lemma sum_list_with_indicator `{EqDecision A} (x : A) (l : list A) :
  NoDup l →
  sum_list_with (λ y, if decide (x = y) then 1 else 0)%nat l
  = (if decide (x ∈ l) then 1 else 0)%nat.
Proof.
  induction l as [|y l IH]; intros Hnd; cbn.
  - rewrite decide_False; [done|]. apply not_elem_of_nil.
  - apply NoDup_cons in Hnd as [Hy Hnd]. rewrite IH by done.
    destruct (decide (x = y)) as [->|Hxy].
    + rewrite (decide_False (P:=y ∈ l)) by done.
      rewrite decide_True; [done|left].
    + destruct (decide (x ∈ l)) as [Hx|Hx].
      * rewrite decide_True; [done|by right].
      * rewrite decide_False; [done|]. by intros [?|?]%elem_of_cons.
Qed.

Lemma length_bind {A B} (f : A → list B) (l : list A) :
  length (l ≫= f) = sum_list_with (λ x, length (f x)) l.
Proof.
  induction l as [|x l IH]; [done|]. rewrite bind_cons, length_app, IH. done.
Qed.

Lemma sum_group_lengths (rows : list (string * Z)) (L : list string) :
  NoDup L → (∀ row, row ∈ rows → row.1 ∈ L) →
  sum_list_with (λ n, length (filter (λ row, row.1 = n) rows)) L = length rows.
Proof.
  intros HL. induction rows as [|row rows IH]; intros Hin.
  - by apply sum_list_with_zero.
  - rewrite (sum_list_with_pointwise _
               (λ n, (if decide (row.1 = n) then 1 else 0)
                     + length (filter (λ row0 : string * Z, row0.1 = n) rows))%nat).
    + rewrite sum_list_with_add, sum_list_with_indicator by done.
      rewrite decide_True by (apply Hin; left).
      rewrite IH by (intros; apply Hin; by right). done.
    + intros n. rewrite filter_cons. by destruct (decide (row.1 = n)).
Qed.

Lemma sum_group_counts (rows : list (string * Z)) :
  foldr Z.add 0 ((group_by_name_count rows).*2) = Z.of_nat (length rows).
Proof.
  rewrite <- (sum_group_lengths rows (remove_dups rows.*1)).
  - unfold group_by_name_count. induction (remove_dups rows.*1) as [|n L IH]; [done|].
    cbn. rewrite IH. lia.
  - apply NoDup_remove_dups.
  - intros row Hrow. apply elem_of_remove_dups. by apply list_elem_of_fmap_2.
Qed.

(** The join keeps a book once if its author_id is the id of an Author,
    and drops it otherwise. *)
Lemma sum_author_matches d (row : Z * (string * option Z)) :
  sum_list_with (λ a : Z * string, if decide (row.2.2 = Some a.1) then 1 else 0)%nat
                (map_to_list (authors d))
  = (if decide (is_Some (a ← row.2.2; authors d !! a)) then 1 else 0)%nat.
Proof.
  destruct row as [k [t [a|]]]; cbn.
  - rewrite (sum_list_with_pointwise _
               (λ a' : Z * string, if decide (a = a'.1) then 1 else 0)%nat).
    2:{ intros a'. destruct (decide (a = a'.1)) as [->|Hne].
        - by rewrite decide_True.
        - rewrite decide_False; [done|]. by intros [= ?]. }
    transitivity (sum_list_with (λ a' : Z, if decide (a = a') then 1 else 0)%nat
                    (map_to_list (authors d)).*1);
      [symmetry; apply (sum_list_with_fmap_fst
                          (λ a' : Z, if decide (a = a') then 1 else 0)%nat)|].
    rewrite sum_list_with_indicator by apply NoDup_fst_map_to_list.
    destruct (decide (a ∈ (map_to_list (authors d)).*1)) as [Ha|Ha].
    + rewrite decide_True; [done|].
      apply list_elem_of_fmap in Ha as [[a' n] [-> Ha]].
      apply elem_of_map_to_list in Ha. by eexists.
    + rewrite decide_False; [done|]. intros [n Hn]. apply Ha.
      apply list_elem_of_fmap. exists (a, n). split; [done|].
      by apply elem_of_map_to_list.
  - rewrite decide_False by (by intros [? ?]).
    by apply sum_list_with_zero.
Qed.

Lemma length_inner_join d : length (inner_join d) = length (books_with_author d).
Proof.
  unfold inner_join, books_with_author, select_books_by_author.
  rewrite length_bind.
  rewrite (sum_list_with_pointwise _
             (λ a, length (filter (λ row : Z * (string * option Z), row.2.2 = Some a.1)
                                  (map_to_list (books d)))))
    by (intros a; apply length_fmap).
  induction (map_to_list (books d)) as [|row rows IH].
  - by apply sum_list_with_zero.
  - rewrite (sum_list_with_pointwise _
               (λ a, (if decide (row.2.2 = Some a.1) then 1 else 0)
                     + length (filter (λ row0 : Z * (string * option Z),
                                         row0.2.2 = Some a.1) rows))%nat).
    2:{ intros a. rewrite filter_cons. by destruct (decide (row.2.2 = Some a.1)). }
    rewrite sum_list_with_add, IH, filter_cons, sum_author_matches.
    by destruct (decide (is_Some (a ← row.2.2; authors d !! a))).
Qed.

(** X19: on a store that raises no failure, the counts that
    get_authors_book_counts returns add up to the number of books whose
    author_id is the id of an Author: a book without author, or whose
    author is missing, is counted nowhere, and no book is counted twice. *)
Theorem book_counts_total (w : World) :
  healthy (faults w) →
  ∃ r w',
    get_authors_book_counts w = (Return r, w')
    ∧ foldr Z.add 0 (book_count <$> r) = Z.of_nat (length (books_with_author (db w))).
Proof.
  destruct w as [d fs ss bo uo]; cbn [db faults]. intros Hfs.
  rewrite get_authors_book_counts_healthy by done. eexists _, _.
  split; [reflexivity|].
  rewrite <- list_fmap_compose.
  assert (book_count ∘ (λ row : string * Z, mkBookCount row.1 row.2) = snd) as ->
    by done.
  by rewrite sum_group_counts, length_inner_join.
Qed.

Lemma book_counts_total_witness :
  healthy (faults (world_of db1 []))
  ∧ ∃ r w',
      get_authors_book_counts (world_of db1 []) = (Return r, w')
      ∧ foldr Z.add 0 (book_count <$> r)
        = Z.of_nat (length (books_with_author (db (world_of db1 [])))).
Proof.
  assert (healthy (faults (world_of db1 []))) as Hfs by compute_done.
  split; [exact Hfs|]. exact (book_counts_total (world_of db1 []) Hfs).
Defined.

(** * Referential integrity under the repository *)

Lemma referential_integrity_Forall d :
  referential_integrity d
  ↔ map_Forall (λ _ row, row.2 = None ∨ is_Some (a ← row.2; authors d !! a)) (books d).
Proof.
  split.
  - intros Hd k [title [a|]] Hk; cbn; [|by left]. right. by apply (Hd k title a).
  - intros Hd k title a Hk. by destruct (Hd k (title, Some a) Hk) as [?|?].
Qed.

(** X20: a database in which every Book's author_id is the id of an Author
    stays so under delete_book and get_books_by_author, and under an
    add_book whose author_id is the id of an Author, whatever the store
    does and whether the call returns or raises. *)
Theorem repository_keeps_integrity (w : World) :
  referential_integrity (db w) →
  (∀ book_id,
     referential_integrity (db (BookRepository.delete_book book_repo book_id w).2))
  ∧ (∀ author_id,
       referential_integrity
         (db (BookRepository.get_books_by_author book_repo author_id w).2))
  ∧ (∀ title author_id,
       is_Some (authors (db w) !! author_id) →
       referential_integrity
         (db (BookRepository.add_book book_repo title author_id w).2)).
Proof.
  destruct w as [d fs ss bo uo]; cbn [db]. intros Hd. split; [|split].
  - intros book_id. destruct (decide (int64 book_id)) as [Hb|Hb];
      [|by rewrite delete_book_overflow by done].
    rewrite delete_book_cases by done.
    destruct (books d !! book_id) as [row|];
      destruct fs as [|[m1|] [|[m2|] [|[m3|] fs']]]; cbn [snd db];
      first [done | by apply remove_book_keeps_integrity].
  - intros author_id. destruct (decide (int64 author_id)) as [Hb|Hb];
      [|by rewrite get_books_by_author_overflow by done].
    rewrite get_books_by_author_cases by done.
    by destruct fs as [|[m1|] fs'].
  - intros title author_id Ha. destruct (decide (int64 author_id)) as [Hb|Hb];
      [|by rewrite add_book_overflow by done].
    destruct (decide (int64 (next_rowid (books d)))) as [Hk|Hk].
    + rewrite add_book_cases by done. cbn zeta.
      destruct fs as [|[m1|] [|[m2|] [|[m3|] fs']]]; cbn [snd db];
        first [done | by apply insert_book_keeps_integrity].
    + rewrite add_book_full by done. by destruct fs as [|[m1|] fs'].
Qed.

Lemma repository_keeps_integrity_witness :
  referential_integrity (db (world_of db1 []))
  ∧ (∀ book_id,
       referential_integrity
         (db (BookRepository.delete_book book_repo book_id (world_of db1 [])).2))
  ∧ (∀ author_id,
       referential_integrity
         (db (BookRepository.get_books_by_author book_repo author_id (world_of db1 [])).2))
  ∧ (∀ title author_id,
       is_Some (authors (db (world_of db1 [])) !! author_id) →
       referential_integrity
         (db (BookRepository.add_book book_repo title author_id (world_of db1 [])).2)).
Proof.
  assert (referential_integrity (db (world_of db1 []))) as Hd.
  { apply referential_integrity_Forall. compute_done. }
  split; [exact Hd|]. exact (repository_keeps_integrity (world_of db1 []) Hd).
Defined.
